(** * METAHIT reassembly: insert-size mixture estimator

    A shallow embedding of [7_reassembly/scripts/7_reassembly.py]:
    the insert-size sampler, the quantile initialiser, the two-component
    EM fit, the cutoff policy, the intra/inter pair counter and the
    chimeric ratios.

    Numbers: Python floats are modelled by the real numbers [R] (no
    rounding, no NaN); where the script itself produces a NaN or an
    infinity as a sentinel the result type says so.  Text is modelled by
    [string]; the set of seen read names by a [gset string]. *)

From Stdlib Require Import Reals Lra Lia ZArith List String Ascii Bool.
From Stdlib Require DecimalString DecimalPos DecimalZ.
From stdpp Require Import base gmap sets list strings.
Import ListNotations.

Local Open Scope R_scope.

(** ** Python and NumPy primitives *)

(** Python's builtin [max(a, b)]: the first argument unless the second
    is strictly greater. *)
Definition py_max (a b : R) : R := if Rlt_dec a b then b else a.

(** Python's builtin [min(a, b)]: the first argument unless the second
    is strictly smaller. *)
Definition py_min (a b : R) : R := if Rlt_dec b a then b else a.

(** [np.sum] of an array. *)
Definition np_sum (xs : list R) : R := fold_right Rplus 0 xs.

(** [len(data)] as a float. *)
Definition len (xs : list R) : R := INR (List.length xs).

(** The arithmetic of [arr.mean()] on a non-empty array. *)
Definition mean_of (xs : list R) : R := np_sum xs / len xs.

(** [arr.mean()]: NaN, written [None], on an empty array. *)
Definition np_mean (xs : list R) : option R :=
  match xs with
  | [] => None
  | _ => Some (mean_of xs)
  end.

(** The arithmetic of [arr.std(ddof=1)], the Bessel-corrected standard
    deviation, on an array of at least two values. *)
Definition std1_of (xs : list R) : R :=
  sqrt (np_sum (map (fun x => (x - mean_of xs) ^ 2) xs) / (len xs - 1)).

(** [arr.std(ddof=1)]: NaN, written [None], on an array of fewer than
    two values (0/0). *)
Definition np_std1 (xs : list R) : option R :=
  match xs with
  | [] | [_] => None
  | _ => Some (std1_of xs)
  end.

(** [max(a, b)] when [a] may be NaN: no comparison with NaN holds, so
    Python's [max] returns its first argument, NaN. *)
Definition py_max_nan (a : option R) (b : R) : option R :=
  option_map (fun x => py_max x b) a.

(** ** ChimericRatioEstimator ([main], lines 235 and 241) *)

(** A float result that may be one of the two sentinels the script
    writes: [float('nan')] and [float('inf')]. *)
Inductive ratio : Type :=
  | Finite (r : R)
  | PosInf
  | NaN.

(** [(n * pi_C + m) / (n + m) if (n + m) > 0 else float('nan')] *)
Definition long_range_ratio (n m : nat) (pi_C : R) : ratio :=
  if Nat.ltb 0 (n + m) then Finite ((INR n * pi_C + INR m) / INR (n + m))
  else NaN.

(** [m / n if n > 0 else float('inf')] *)
Definition ratio_3d (n m : nat) : ratio :=
  if Nat.ltb 0 n then Finite (INR m / INR n) else PosInf.

(** ** CutoffDeriver ([main], lines 248-259) *)

(** The body of the [try] block, in the error monad: [norm_ppf] is
    SciPy's standard-normal quantile function; [None] stands for a raised
    exception. *)
Definition cutoff_policy (th_C th_N : R) : R :=
  if Rle_dec th_N 0 then py_max th_C 100
  else if Rle_dec th_C 0 then py_max th_N 100
  else py_max (py_min th_C th_N) 100.

Definition try_cutoff (norm_ppf : R -> option R)
    (mu_C mu_N sigma_C sigma_N : R) : option R :=
  match norm_ppf (5 / 100) with
  | None => None
  | Some z05 =>
      let th_C := mu_C + z05 * sigma_C in
      match norm_ppf (95 / 100) with
      | None => None
      | Some z95 =>
          let th_N := mu_N + z95 * sigma_N in
          Some (cutoff_policy th_C th_N)
      end
  end.

(** [try: ... except: cutoff = 500] *)
Definition derive_cutoff (norm_ppf : R -> option R)
    (mu_C mu_N sigma_C sigma_N : R) : R :=
  match try_cutoff norm_ppf mu_C mu_N sigma_C sigma_N with
  | Some c => c
  | None => 500
  end.

(** ** MixtureInitializer ([init_params], lines 74-98) *)

(** The six parameters of the two-component mixture. *)
Record MixtureParams : Type := mkParams {
  mu_N : R; mu_C : R; sigma_N : R; sigma_C : R; pi_N : R; pi_C : R
}.

(** Ascending sort, as NumPy performs before it reads order statistics. *)
Fixpoint insert_sorted (x : R) (xs : list R) : list R :=
  match xs with
  | [] => [x]
  | y :: ys => if Rle_dec x y then x :: y :: ys else y :: insert_sorted x ys
  end.

Definition np_sort (xs : list R) : list R := fold_right insert_sorted [] xs.

(** NumPy's [_lerp(a, b, t)]. *)
Definition np_lerp (a b t : R) : R :=
  if Rle_dec (1 / 2) t then b - (b - a) * (1 - t) else a + (b - a) * t.

(** [np.percentile(data, q)] with NumPy's default method ("linear"), for
    a non-empty array and [0 <= q <= 100]: the virtual index is
    [(n - 1) * q / 100]; the result interpolates between the order
    statistics at its floor and at the next index (indices past the end
    are clipped to the last element). *)
Definition np_percentile (data : list R) (q : R) : R :=
  let s := np_sort data in
  let n := List.length data in
  let virtual_index := (INR n - 1) * (q / 100) in
  let previous := Z.to_nat (Int_part virtual_index) in
  let lo := nth (Nat.min previous (n - 1)) s 0 in
  let hi := nth (Nat.min (previous + 1) (n - 1)) s 0 in
  np_lerp lo hi (virtual_index - INR previous).

(** Boolean-mask selections [data[data <= q]] and [data[data > q]]. *)
Definition select_le (data : list R) (q : R) : list R :=
  List.filter (fun x => if Rle_dec x q then true else false) data.

Definition select_gt (data : list R) (q : R) : list R :=
  List.filter (fun x => if Rgt_dec x q then true else false) data.

(** Lines 83-90: the quantile split and its two positional fallbacks,
    for a non-empty sample and a fraction in [[0, 1]] ([np.percentile]
    raises outside).  Returns [(lower, upper)]. *)
Definition init_groups (data : list R) (init_frac : R) : list R * list R :=
  let q := np_percentile data (init_frac * 100) in
  let lower := select_le data q in
  let upper := select_gt data q in
  let lower :=
    if Nat.eqb (List.length lower) 0
    then firstn (Nat.max 1 (List.length data / 2)) data else lower in
  let upper :=
    if Nat.eqb (List.length upper) 0
    then skipn (Nat.max 1 (List.length data / 2)) data else upper in
  (lower, upper).

(** What [init_params] returns: the means and deviations may be NaN
    ([None]); the weights are always numbers. *)
Record InitParams : Type := mkInit {
  init_mu_N : option R; init_mu_C : option R;
  init_sigma_N : option R; init_sigma_C : option R;
  init_pi_N : R; init_pi_C : R
}.

Definition init_params (data : list R) (init_frac : R) : InitParams :=
  match data with
  | [] => mkInit (Some 400) (Some 2000) (Some 100) (Some 500) (8 / 10) (2 / 10)
  | _ =>
      let '(lower, upper) := init_groups data init_frac in
      let pi_N := len lower / len data in
      mkInit (np_mean lower) (np_mean upper)
             (py_max_nan (np_std1 lower) 1) (py_max_nan (np_std1 upper) 1)
             pi_N (1 - pi_N)
  end.

(** ** EMFitter ([em_mix], lines 100-143) *)

(** SciPy's [norm.pdf(x, loc, scale)]. *)
Definition norm_pdf (x loc scale : R) : R :=
  exp (- ((x - loc) / scale) ^ 2 / 2) / sqrt (2 * PI) / scale.

(** E-step, at one sample value [x] (NumPy applies it elementwise). *)
Definition w_C (p : MixtureParams) (x : R) : R :=
  pi_C p * norm_pdf x (mu_C p) (sigma_C p).

Definition w_N (p : MixtureParams) (x : R) : R :=
  pi_N p * norm_pdf x (mu_N p) (sigma_N p).

(** [total = np.maximum(wC + wN, 1e-10)] *)
Definition total (p : MixtureParams) (x : R) : R :=
  Rmax (w_C p x + w_N p x) 1e-10.

Definition gamma_C (p : MixtureParams) (x : R) : R := w_C p x / total p x.
Definition gamma_N (p : MixtureParams) (x : R) : R := w_N p x / total p x.

(** The M-step update of one component: given the responsibilities
    [g] of the component, its current mean and deviation, returns the new
    pair (unchanged when the responsibilities do not sum to a positive
    number). *)
Definition m_update (data : list R) (g : R -> R) (mu sigma : R) : R * R :=
  let sum_gamma := np_sum (map g data) in
  if Rgt_dec sum_gamma 0 then
    let mu' := np_sum (map (fun x => g x * x) data) / sum_gamma in
    let sigma' :=
      py_max (sqrt (np_sum (map (fun x => g x * (x - mu') ^ 2) data)
                    / sum_gamma)) 1e-6 in
    (mu', sigma')
  else (mu, sigma).

(** One pass of the loop body, lines 109-132; [data] is not empty when
    the loop runs, and the two [.mean()] are their arithmetic. *)
Definition em_step (data : list R) (p : MixtureParams) : MixtureParams :=
  let '(mu_C', sigma_C') := m_update data (gamma_C p) (mu_C p) (sigma_C p) in
  let '(mu_N', sigma_N') := m_update data (gamma_N p) (mu_N p) (sigma_N p) in
  mkParams mu_N' mu_C' sigma_N' sigma_C'
           (mean_of (map (gamma_N p) data)) (mean_of (map (gamma_C p) data)).

(** Lines 134-135: the total log-likelihood. *)
Definition log_likelihood (data : list R) (p : MixtureParams) : R :=
  np_sum (map (fun x => ln (w_C p x + w_N p x)) data).

(** What [em_mix] prints. *)
Inductive log_event : Type :=
  | WarnNoData
  | InfoConverged (iterations : nat)
  | IterLine (iteration : nat) (logL : R) (p : MixtureParams).

(** The [for iteration in range(max_iter)] loop; [remaining] counts the
    iterations still allowed, [logL] is [None] before the first one. *)
Fixpoint em_loop (remaining iteration : nat) (data : list R) (tol : R)
    (p : MixtureParams) (logL : option R) : MixtureParams * list log_event :=
  match remaining with
  | O => (p, [])
  | S remaining' =>
      let p' := em_step data p in
      let new_logL := log_likelihood data p' in
      let continue :=
        let '(r, evs) :=
          em_loop remaining' (S iteration) data tol p' (Some new_logL) in
        (r, IterLine (iteration + 1) new_logL p' :: evs) in
      match logL with
      | Some l =>
          if Rlt_dec (Rabs (new_logL - l)) tol
          then (p', [InfoConverged (iteration + 1)])
          else continue
      | None => continue
      end
  end.

(** The tuple [em_mix] returns, in the order of its [return]. *)
Definition em_result (p : MixtureParams) : R * R * R * R * R * R :=
  (mu_C p, mu_N p, sigma_C p, sigma_N p, pi_C p, pi_N p).

Definition em_mix (data : list R) (mu_N mu_C sigma_N sigma_C pi_N pi_C : R)
    (tol : R) (max_iter : nat) : (R * R * R * R * R * R) * list log_event :=
  match data with
  | [] => ((mu_C, mu_N, sigma_C, sigma_N, pi_C, pi_N), [WarnNoData])
  | _ =>
      let '(p, evs) :=
        em_loop max_iter 0 data tol
                (mkParams mu_N mu_C sigma_N sigma_C pi_N pi_C) None in
      (em_result p, evs)
  end.

(** ** Text primitives: Python [str] methods and the shell filters *)

Definition TAB : ascii := "009"%char.
Definition LF : ascii := "010"%char.

(** [s.split(sep)] for a one-character separator: always at least one
    piece; adjacent separators give empty pieces. *)
Fixpoint py_split (sep : ascii) (s : string) : list string :=
  match s with
  | EmptyString => [EmptyString]
  | String c s' =>
      if Ascii.eqb c sep then EmptyString :: py_split sep s'
      else match py_split sep s' with
           | w :: ws => String c w :: ws
           | [] => [String c EmptyString]
           end
  end.

(** The ASCII characters for which [str.isspace()] holds: 9-13, 28-31
    and the space. *)
Definition py_isspace (c : ascii) : bool :=
  let n := nat_of_ascii c in
  ((9 <=? n)%nat && (n <=? 13)%nat) || ((28 <=? n)%nat && (n <=? 32)%nat).

Fixpoint py_lstrip (s : string) : string :=
  match s with
  | EmptyString => EmptyString
  | String c s' => if py_isspace c then py_lstrip s' else s
  end.

Fixpoint py_rstrip (s : string) : string :=
  match s with
  | EmptyString => EmptyString
  | String c s' =>
      match py_rstrip s' with
      | EmptyString => if py_isspace c then EmptyString else String c EmptyString
      | r => String c r
      end
  end.

(** [s.strip()] *)
Definition py_strip (s : string) : string := py_rstrip (py_lstrip s).

(** [needle in s]: substring test, which is also how [grep -F] matches
    one fixed pattern against a line. *)
Fixpoint contains (needle s : string) : bool :=
  String.prefix needle s ||
  match s with
  | EmptyString => false
  | String _ s' => contains needle s'
  end.

(** awk's default field splitting: fields are the maximal runs of
    non-blank characters (blanks are space, tab and newline). *)
Definition awk_blank (c : ascii) : bool :=
  Ascii.eqb c " "%char || Ascii.eqb c TAB || Ascii.eqb c LF.

Fixpoint awk_fields (s : string) : list string :=
  match s with
  | EmptyString => []
  | String c s' =>
      if awk_blank c then awk_fields s'
      else match s' with
           | EmptyString => [String c EmptyString]
           | String c' _ =>
               if awk_blank c' then String c EmptyString :: awk_fields s'
               else match awk_fields s' with
                    | w :: ws => String c w :: ws
                    | [] => [String c EmptyString]
                    end
           end
  end.

(** Decimal integers, as samtools prints the numeric SAM columns. *)
Definition digit_val (c : ascii) : option Z :=
  let n := Z.of_nat (nat_of_ascii c) in
  if ((48 <=? n) && (n <=? 57))%Z then Some (n - 48)%Z else None.

Fixpoint parse_digits (acc : Z) (s : string) : option Z :=
  match s with
  | EmptyString => Some acc
  | String c s' =>
      match digit_val c with
      | Some d => parse_digits (10 * acc + d)%Z s'
      | None => None
      end
  end.

Definition parse_int (s : string) : option Z :=
  match s with
  | EmptyString => None
  | String c s' =>
      if Ascii.eqb c "-"%char then
        match s' with
        | EmptyString => None
        | _ => option_map Z.opp (parse_digits 0 s')
        end
      else parse_digits 0 s
  end.

(** ** PairCounter ([count_intra_inter_pairs], lines 145-187) *)

(** The fields the loop reads from one line of the samtools output:
    [None] for a blank line or a line with fewer than 7 tab-separated
    fields (the two [continue]s), else [(qname, rname, mate_rname)]. *)
Definition parse_record (line : string) : option (string * string * string) :=
  let stripped := py_strip line in
  if String.eqb stripped EmptyString then None
  else
    let fields := py_split TAB stripped in
    if (List.length fields <? 7)%nat then None
    else Some (nth 0 fields EmptyString,
               nth 2 fields EmptyString,
               nth 6 fields EmptyString).

(** [mate_rname == '=' or mate_rname == rname] *)
Definition same_reference (rname mate_rname : string) : bool :=
  String.eqb mate_rname "=" || String.eqb mate_rname rname.

(** The loop state: the two counters and the set of seen read names. *)
Record pair_state : Type := mkPairState {
  intra : nat;
  inter : nat;
  seen : gset string
}.

(** One pass of the loop body, lines 165-184. *)
Definition count_line (st : pair_state) (line : string) : pair_state :=
  match parse_record line with
  | None => st
  | Some (qname, rname, mate_rname) =>
      if decide (qname ∈ seen st) then st
      else
        let seen' := {[qname]} ∪ seen st in
        if same_reference rname mate_rname
        then mkPairState (intra st + 1) (inter st) seen'
        else mkPairState (intra st) (inter st + 1) seen'
  end.

(** The loop over the lines of the stream. *)
Definition count_lines (lines : list string) : nat * nat :=
  let st := fold_left count_line lines (mkPairState 0 0 ∅) in
  (intra st, inter st).

(** [count_intra_inter_pairs], as a function of the text that
    [samtools view -f 1 -F 0x904] printed (the paired, mapped, primary
    records of the BAM file). *)
Definition count_intra_inter_pairs (stdout : string) : nat * nat :=
  count_lines (py_split LF stdout).

(** The read names of the records the loop looks at, in stream order. *)
Definition record_names (lines : list string) : list string :=
  omap (fun l => match parse_record l with
                 | Some (qname, _, _) => Some qname
                 | None => None
                 end) lines.

(** ** InsertSizeSampler ([sample_insert_sizes], lines 50-72) *)

(** [grep -F -f contig_list]: a line passes when some pattern of the list
    occurs in it as a substring. *)
Definition grep_F (patterns : list string) (line : string) : bool :=
  existsb (fun p => contains p line) patterns.

(** The awk program on one line: column 9 read as an integer [t] (the
    SAM template length); prints [|t|] when [t != 0], [t > -5000] and
    [t < 5000].  A missing column is 0 to awk and prints nothing. *)
Definition awk_insert_size (line : string) : option Z :=
  match parse_int (nth 8 (awk_fields line) EmptyString) with
  | None => None
  | Some t =>
      if (negb (t =? 0) && (-5000 <? t) && (t <? 5000))%Z
      then Some (if (t <? 0)%Z then (- t)%Z else t)
      else None
  end.

(** The lines the pipeline hands to awk: [head -n top_k] of the
    whitelist, then [grep] over the SAM text of the BAM file. *)
Definition sampler_kept (bam : list string) (top_k : nat)
    (contig_sort : list string) : list string :=
  List.filter (grep_F (firstn top_k contig_sort)) bam.

(** The values found in [insert_size.txt] when the function returns. *)
Definition sample_insert_sizes (bam : list string) (top_k : nat)
    (contig_sort : list string) : list Z :=
  match omap awk_insert_size (sampler_kept bam top_k contig_sort) with
  | [] => [300; 400; 500]%Z
  | sizes => sizes
  end.

(** A SAM line from its columns. *)
Definition sam_line (columns : list string) : string :=
  String.concat (String TAB EmptyString) columns.

(** ** The alignment stream, described apart from the counter *)

(** A character of a SAM column: printable and not blank (codes 33 to
    126); tab and newline only separate columns and records. *)
Definition sam_char (c : ascii) : bool :=
  let n := nat_of_ascii c in (33 <=? n)%nat && (n <=? 126)%nat.

Fixpoint sam_text (s : string) : bool :=
  match s with
  | EmptyString => true
  | String c s' => sam_char c && sam_text s'
  end.

(** A SAM column: non-empty text of such characters. *)
Definition sam_field (s : string) : bool :=
  negb (String.eqb s EmptyString) && sam_text s.

(** A record as samtools prints it has at least the mandatory columns;
    the counter needs the first seven. *)
Definition sam_record (columns : list string) : Prop :=
  (7 <= List.length columns)%nat /\ Forall (fun c => sam_field c = true) columns.

(** Column [i] of a record, counted from 0: 0 is the read name, 2 the
    reference name, 6 the mate's reference name. *)
Definition column (i : nat) (columns : list string) : string :=
  nth i columns EmptyString.

(** What [samtools view] writes for a list of records: one line per
    record, each ended by a newline. *)
Definition sam_stdout (records : list (list string)) : string :=
  fold_right (fun columns out => (sam_line columns ++ String LF out)%string)
             EmptyString records.

(** The mate maps to the same reference: column 6 is [=] or repeats
    column 2. *)
Definition intra_columns (columns : list string) : bool :=
  String.eqb (column 6 columns) "=" ||
  String.eqb (column 6 columns) (column 2 columns).

(** The character [c] does not occur in [s]. *)
Fixpoint no_char (c : ascii) (s : string) : bool :=
  match s with
  | EmptyString => true
  | String a s' => negb (Ascii.eqb a c) && no_char c s'
  end.

(** For an arbitrary line of text: it counts as a record when, leading
    and trailing blanks apart, it is not empty and has at least seven
    tab-separated columns; its read name is then the first of them. *)
Definition line_columns (line : string) : list string :=
  py_split TAB (py_strip line).

Definition is_record (line : string) : bool :=
  negb (String.eqb (py_strip line) EmptyString) &&
  (7 <=? List.length (line_columns line))%nat.

Definition stream_names (lines : list string) : list string :=
  map (fun line => column 0 (line_columns line)) (List.filter is_record lines).

(** ** Predicates and sample inputs used in the statements *)

(** A quantile table with the two values the script asks for. *)
Definition z_table (p : R) : option R :=
  if Rlt_dec p (1 / 2) then Some (- (1645 / 1000)) else Some (1645 / 1000).

(** Both standard deviations respect the numeric floor. *)
Definition sigma_floor (p : MixtureParams) : Prop :=
  1e-6 <= sigma_N p /\ 1e-6 <= sigma_C p.

(** The floor on the E-step denominator does not bind on [data]. *)
Definition dense (data : list R) (p : MixtureParams) : Prop :=
  Forall (fun x => 1e-10 <= w_C p x + w_N p x) data.

(** The parameters at the start of iteration [k] when no convergence
    test has stopped the loop before. *)
Definition em_iterate (data : list R) (p0 : MixtureParams) (k : nat)
  : MixtureParams := Nat.iter k (em_step data) p0.

(** Both components at 100 with unit deviation and equal weights. *)
Definition p_floor : MixtureParams := mkParams 100 100 1 1 (1 / 2) (1 / 2).

(** The sample of the end-to-end scenario. *)
Definition scenario : list R := [100; 100; 100; 3000; 3000].

(** Three SAM records: the two ends of pair [r1] on contig [k141_10],
    and one end of pair [r2] on contig [k141_7]. *)
Definition rec_fwd : string :=
  sam_line ["r1"; "99"; "k141_10"; "100"; "60"; "100M"; "="; "300"; "300";
            "ACGT"; "FFFF"]%string.

Definition rec_rev : string :=
  sam_line ["r1"; "147"; "k141_10"; "300"; "60"; "100M"; "="; "100"; "-300";
            "ACGT"; "FFFF"]%string.

Definition rec_other : string :=
  sam_line ["r2"; "99"; "k141_7"; "500"; "60"; "100M"; "k141_7"; "900"; "500";
            "ACGT"; "FFFF"]%string.

(** The same three records, column by column. *)
Definition columns_fwd : list string :=
  ["r1"; "99"; "k141_10"; "100"; "60"; "100M"; "="; "300"; "300";
   "ACGT"; "FFFF"]%string.

Definition columns_rev : list string :=
  ["r1"; "147"; "k141_10"; "300"; "60"; "100M"; "="; "100"; "-300";
   "ACGT"; "FFFF"]%string.

Definition columns_other : list string :=
  ["r2"; "99"; "k141_7"; "500"; "60"; "100M"; "k141_7"; "900"; "500";
   "ACGT"; "FFFF"]%string.

(** A whitelist sorted by length, longest first. *)
Definition whitelist : list string := ["k141_1"; "k141_2"]%string.

(** ** Further predicates used in the statements *)

(** Weights that are non-negative and total at most one, deviations that
    are positive. *)
Definition weights_ok (p : MixtureParams) : Prop :=
  0 <= pi_N p /\ 0 <= pi_C p /\ pi_N p + pi_C p <= 1 /\
  0 < sigma_N p /\ 0 < sigma_C p.

(** Both means lie in the interval [[a, b]]. *)
Definition means_within (a b : R) (p : MixtureParams) : Prop :=
  a <= mu_N p <= b /\ a <= mu_C p <= b.

(** The log-likelihood the convergence test of iteration [k] compares
    with: the one carried into the loop for the first iteration, the one
    of the previous iterate afterwards. *)
Definition prev_logL (data : list R) (p : MixtureParams) (logL : option R)
    (k : nat) : option R :=
  match k with
  | O => None
  | S O => logL
  | S (S j) => Some (log_likelihood data (em_iterate data p (S j)))
  end.

(** ** Read partition ([main], lines 268-297) *)

(** [cut -f1]: the text before the first tab (the whole line when it has
    no tab). *)
Definition cut_f1 (line : string) : string :=
  hd EmptyString (py_split TAB line).

(** The awk pattern [$9 >= -cutoff && $9 <= cutoff && $9 != 0], with
    column 9 read as an integer as in [awk_insert_size]. *)
Definition band_keep (cutoff : R) (line : string) : bool :=
  match parse_int (nth 8 (awk_fields line) EmptyString) with
  | None => false
  | Some t =>
      if Rge_dec (IZR t) (- cutoff) then
        if Rle_dec (IZR t) cutoff then negb (t =? 0)%Z else false
      else false
  end.

(** [readname_sg_in_hic.txt]: the names of the records inside the band,
    as [sort -u] leaves them, a duplicate-free sorted file, modelled by
    the set of its lines. *)
Definition sg_readnames (cutoff : R) (bam : list string) : gset string :=
  list_to_set (map cut_f1 (List.filter (band_keep cutoff) bam)).

(** [all_hic_readnames.txt] *)
Definition all_readnames (bam : list string) : gset string :=
  list_to_set (map cut_f1 bam).

(** [readname_non_sg_in_hic.txt]: [comm -23], the lines of the first
    file that are not in the second. *)
Definition non_sg_readnames (cutoff : R) (bam : list string) : gset string :=
  all_readnames bam ∖ sg_readnames cutoff bam.

(** ** Reading [insert_size.txt] back ([main], lines 210-219) *)

(** How awk and samtools print an integer: decimal digits, with a
    leading [-] for a negative one. *)
Definition print_int (z : Z) : string :=
  DecimalString.NilZero.string_of_int (Z.to_int z).

(** The lines of [insert_size.txt] for the values the sampler wrote, as
    Python's file iterator yields them (newline included). *)
Definition insert_size_file (values : list Z) : list string :=
  map (fun v => (print_int v ++ String LF EmptyString)%string) values.

Definition is_digit (c : ascii) : bool :=
  match digit_val c with Some _ => true | None => false end.

Fixpoint all_digits (s : string) : bool :=
  match s with
  | EmptyString => true
  | String c s' => is_digit c && all_digits s'
  end.

(** [s.isdigit()] on ASCII text: non-empty and digits only. *)
Definition py_isdigit (s : string) : bool :=
  negb (String.eqb s EmptyString) && all_digits s.

(** [s.replace(c, '')] for a one-character [c]. *)
Fixpoint remove_char (c : ascii) (s : string) : string :=
  match s with
  | EmptyString => EmptyString
  | String a s' =>
      if Ascii.eqb a c then remove_char c s' else String a (remove_char c s')
  end.

(** [float(s)] on a text of digits and dots (what the digit test lets
    through): digits, optionally with one dot among them; [None] stands
    for the [ValueError] raised otherwise. *)
Definition py_float (s : string) : option R :=
  match py_split "."%char s with
  | [i] =>
      if String.eqb i EmptyString then None
      else option_map IZR (parse_digits 0 i)
  | [i; f] =>
      if String.eqb i EmptyString && String.eqb f EmptyString then None
      else match parse_digits 0 i, parse_digits 0 f with
           | Some a, Some b => Some (IZR a + IZR b / 10 ^ String.length f)
           | _, _ => None
           end
  | _ => None
  end.

(** One pass of the reading loop: [None] when [float] raises, else
    whether a value is appended and which. *)
Definition read_value (line : string) : option (option R) :=
  let line := py_strip line in
  if negb (String.eqb line EmptyString) &&
     py_isdigit (remove_char "."%char line)
  then match py_float line with
       | None => None
       | Some val =>
           Some (if Rgt_dec val 0
                 then if Rlt_dec val 5000 then Some val else None
                 else None)
       end
  else Some None.

(** The loop over the lines of the file: the list [values], or [None]
    when a line makes [float] raise. *)
Fixpoint read_insert_sizes (lines : list string) : option (list R) :=
  match lines with
  | [] => Some []
  | line :: rest =>
      match read_value line with
      | None => None
      | Some appended =>
          match read_insert_sizes rest with
          | None => None
          | Some values =>
              Some (match appended with
                    | Some v => v :: values
                    | None => values
                    end)
          end
      end
  end.

(** ** Theorems *)

Lemma py_max_Rmax a b : py_max a b = Rmax a b.
Proof.
  unfold py_max, Rmax.
  destruct (Rlt_dec a b), (Rle_dec a b); lra.
Qed.

Lemma py_min_Rmin a b : py_min a b = Rmin a b.
Proof.
  unfold py_min, Rmin.
  destruct (Rlt_dec b a), (Rle_dec a b); lra.
Qed.

Lemma py_max_floor a b : b <= py_max a b.
Proof. unfold py_max. destruct (Rlt_dec a b); lra. Qed.

(** *** ChimericRatioEstimator *)

(** C5: [long_range_ratio] is [(n*pi_C + m)/(n+m)], and NaN when
    [n + m = 0]; [3d_ratio] is [m/n], and +infinity when [n = 0]; for
    [n = 0], [m = 5], [pi_C = 0.3] they are 1.0 and +infinity. *)
Theorem chimeric_ratios (n m : nat) (piC : R) :
  ((n + m = 0)%nat -> long_range_ratio n m piC = NaN) /\
  ((0 < n + m)%nat ->
     long_range_ratio n m piC = Finite ((INR n * piC + INR m) / (INR n + INR m))) /\
  (n = 0%nat -> ratio_3d n m = PosInf) /\
  ((0 < n)%nat -> ratio_3d n m = Finite (INR m / INR n)) /\
  long_range_ratio 0 5 (3 / 10) = Finite 1 /\
  ratio_3d 0 5 = PosInf.
Proof.
  unfold long_range_ratio, ratio_3d.
  repeat split.
  - intros ->. reflexivity.
  - intros H. destruct (Nat.ltb_spec 0 (n + m)); [|lia].
    now rewrite plus_INR.
  - intros ->. reflexivity.
  - intros H. destruct (Nat.ltb_spec 0 n); [reflexivity|lia].
  - simpl. f_equal. field.
Qed.

Lemma chimeric_ratios_witness :
  long_range_ratio 0 0 (3 / 10) = NaN /\
  long_range_ratio 3 1 (1 / 2) = Finite ((INR 3 * (1 / 2) + INR 1) / (INR 3 + INR 1)) /\
  ratio_3d 0 5 = PosInf /\
  ratio_3d 4 2 = Finite (INR 2 / INR 4).
Proof.
  split; [|split; [|split]].
  - apply (proj1 (chimeric_ratios 0 0 (3 / 10))). reflexivity.
  - apply (proj1 (proj2 (chimeric_ratios 3 1 (1 / 2)))). simpl. lia.
  - apply (proj1 (proj2 (proj2 (chimeric_ratios 0 5 0)))). reflexivity.
  - apply (proj1 (proj2 (proj2 (proj2 (chimeric_ratios 4 2 0))))). lia.
Defined.

(** *** CutoffDeriver *)

Lemma cutoff_policy_floor th_C th_N : 100 <= cutoff_policy th_C th_N.
Proof.
  unfold cutoff_policy.
  destruct (Rle_dec th_N 0); [|destruct (Rle_dec th_C 0)]; apply py_max_floor.
Qed.

(** C2: when the quantile function returns, the cutoff is
    [max(min(th_C, th_N), 100)] if both thresholds are positive,
    [max(th_C, 100)] if [th_N <= 0] and [max(th_N, 100)] if [th_C <= 0];
    when it raises, the cutoff is 500; it is never below 100. *)
Theorem derive_cutoff_policy (norm_ppf : R -> option R)
    (muC muN sigmaC sigmaN : R) :
  (forall z05 z95,
     norm_ppf (5 / 100) = Some z05 -> norm_ppf (95 / 100) = Some z95 ->
     let th_C := muC + z05 * sigmaC in
     let th_N := muN + z95 * sigmaN in
     (0 < th_C -> 0 < th_N ->
        derive_cutoff norm_ppf muC muN sigmaC sigmaN = Rmax (Rmin th_C th_N) 100) /\
     (th_N <= 0 ->
        derive_cutoff norm_ppf muC muN sigmaC sigmaN = Rmax th_C 100) /\
     (th_C <= 0 ->
        derive_cutoff norm_ppf muC muN sigmaC sigmaN = Rmax th_N 100)) /\
  (norm_ppf (5 / 100) = None \/ norm_ppf (95 / 100) = None ->
     derive_cutoff norm_ppf muC muN sigmaC sigmaN = 500) /\
  100 <= derive_cutoff norm_ppf muC muN sigmaC sigmaN.
Proof.
  unfold derive_cutoff, try_cutoff.
  split; [|split].
  - intros z05 z95 -> ->.
    set (th_C := muC + z05 * sigmaC). set (th_N := muN + z95 * sigmaN).
    unfold cutoff_policy. rewrite !py_max_Rmax, py_min_Rmin.
    repeat split; intros.
    + destruct (Rle_dec th_N 0); [lra|]. destruct (Rle_dec th_C 0); [lra|].
      reflexivity.
    + destruct (Rle_dec th_N 0); [reflexivity|lra].
    + destruct (Rle_dec th_N 0); [|destruct (Rle_dec th_C 0); [reflexivity|lra]].
      unfold Rmax. destruct (Rle_dec th_C 100), (Rle_dec th_N 100); lra.
  - intros [-> | H]; [reflexivity|].
    destruct (norm_ppf (5 / 100)); [|reflexivity]. now rewrite H.
  - destruct (norm_ppf (5 / 100)); [|lra].
    destruct (norm_ppf (95 / 100)); [|lra].
    apply cutoff_policy_floor.
Qed.

Lemma derive_cutoff_policy_witness :
  derive_cutoff z_table 2000 400 300 50 = Rmax (Rmin (2000 + - (1645 / 1000) * 300) (400 + 1645 / 1000 * 50)) 100 /\
  derive_cutoff (fun _ => None) 2000 400 300 50 = 500.
Proof.
  split.
  - destruct (derive_cutoff_policy z_table 2000 400 300 50) as [H _].
    apply (H (- (1645 / 1000)) (1645 / 1000)).
    + unfold z_table. destruct (Rlt_dec (5 / 100) (1 / 2)); [reflexivity|lra].
    + unfold z_table. destruct (Rlt_dec (95 / 100) (1 / 2)); [lra|reflexivity].
    + lra.
    + lra.
  - apply (proj1 (proj2 (derive_cutoff_policy (fun _ => None) 2000 400 300 50))).
    left. reflexivity.
Defined.

(** *** EMFitter *)

(** C8: on an empty sample [em_mix] runs no iteration (it only prints
    the warning) and returns the six initial parameters. *)
Theorem em_mix_empty (muN muC sigmaN sigmaC piN piC tol : R) (max_iter : nat) :
  em_mix [] muN muC sigmaN sigmaC piN piC tol max_iter =
  ((muC, muN, sigmaC, sigmaN, piC, piN), [WarnNoData]).
Proof. reflexivity. Qed.

Lemma m_update_floor data g mu sigma :
  1e-6 <= sigma -> 1e-6 <= snd (m_update data g mu sigma).
Proof.
  intros H. unfold m_update.
  destruct (Rgt_dec (np_sum (map g data)) 0); simpl; [apply py_max_floor|exact H].
Qed.

Lemma em_step_floor data p : sigma_floor p -> sigma_floor (em_step data p).
Proof.
  intros [HN HC]. unfold em_step.
  pose proof (m_update_floor data (gamma_C p) (mu_C p) (sigma_C p) HC) as HC'.
  pose proof (m_update_floor data (gamma_N p) (mu_N p) (sigma_N p) HN) as HN'.
  destruct (m_update data (gamma_C p) (mu_C p) (sigma_C p)) as [mc sc].
  destruct (m_update data (gamma_N p) (mu_N p) (sigma_N p)) as [mn sn].
  split; simpl in *; assumption.
Qed.

Lemma em_loop_floor data tol remaining : forall iteration p logL,
  sigma_floor p ->
  sigma_floor (fst (em_loop remaining iteration data tol p logL)) /\
  forall i l q,
    In (IterLine i l q) (snd (em_loop remaining iteration data tol p logL)) ->
    sigma_floor q.
Proof.
  induction remaining as [|r IH]; intros iteration p logL Hp; simpl.
  - split; [exact Hp|]. intros i l q [].
  - pose proof (em_step_floor data p Hp) as Hp'.
    specialize (IH (S iteration) (em_step data p)
                   (Some (log_likelihood data (em_step data p))) Hp').
    destruct (em_loop r (S iteration) data tol (em_step data p)
                (Some (log_likelihood data (em_step data p)))) as [res evs].
    simpl in IH. destruct IH as [IH1 IH2].
    assert (Hcont : sigma_floor res /\
              forall i l q,
                In (IterLine i l q)
                   (IterLine (iteration + 1)
                      (log_likelihood data (em_step data p)) (em_step data p) :: evs) ->
                sigma_floor q).
    { split; [exact IH1|]. intros i l q [Heq | Hin].
      - inversion Heq; subst. exact Hp'.
      - eapply IH2; eauto. }
    destruct logL as [l0|]; [|exact Hcont].
    destruct (Rlt_dec (Rabs (log_likelihood data (em_step data p) - l0)) tol);
      [|exact Hcont].
    simpl. split; [exact Hp'|]. intros i l q [Heq | []]. discriminate.
Qed.

Lemma em_iterate_floor data p k :
  sigma_floor p -> sigma_floor (em_iterate data p k).
Proof.
  intros Hp. induction k as [|k IHk]; [exact Hp|].
  apply (em_step_floor data _ IHk).
Qed.

(** C6: from standard deviations of at least 1e-6, both standard
    deviations that [em_mix] returns, and both after every iteration it
    logs, are at least 1e-6. *)
Theorem em_sigma_floor (data : list R) (muN muC sigmaN sigmaC piN piC tol : R)
    (max_iter : nat) :
  data <> [] -> 1e-6 <= sigmaN -> 1e-6 <= sigmaC ->
  let '((_, _, sC, sN, _, _), evs) :=
    em_mix data muN muC sigmaN sigmaC piN piC tol max_iter in
  1e-6 <= sC /\ 1e-6 <= sN /\
  (forall k, sigma_floor (em_iterate data (mkParams muN muC sigmaN sigmaC piN piC) k)) /\
  (forall i l q, In (IterLine i l q) evs -> 1e-6 <= sigma_C q /\ 1e-6 <= sigma_N q).
Proof.
  intros Hne HN HC.
  assert (H0 : sigma_floor (mkParams muN muC sigmaN sigmaC piN piC)) by (split; assumption).
  unfold em_mix. destruct data as [|x xs]; [contradiction|].
  pose proof (em_loop_floor (x :: xs) tol max_iter 0 _ None H0) as [[H1 H2] H3].
  destruct (em_loop max_iter 0 (x :: xs) tol
              (mkParams muN muC sigmaN sigmaC piN piC) None) as [res evs].
  simpl in *. split; [exact H2|]. split; [exact H1|]. split.
  - intros k. apply em_iterate_floor. exact H0.
  - intros i l q Hin. destruct (H3 i l q Hin). split; assumption.
Qed.

Lemma em_sigma_floor_witness :
  let '((_, _, sC, sN, _, _), evs) :=
    em_mix [100; 3000] 100 3000 1 1 (1 / 2) (1 / 2) (1 / 100) 100 in
  1e-6 <= sC /\ 1e-6 <= sN /\
  (forall k, sigma_floor (em_iterate [100; 3000] (mkParams 100 3000 1 1 (1 / 2) (1 / 2)) k)) /\
  (forall i l q, In (IterLine i l q) evs -> 1e-6 <= sigma_C q /\ 1e-6 <= sigma_N q).
Proof.
  apply (em_sigma_floor [100; 3000] 100 3000 1 1 (1 / 2) (1 / 2) (1 / 100) 100).
  - discriminate.
  - lra.
  - lra.
Defined.

Lemma gamma_sum_one p x :
  1e-10 <= w_C p x + w_N p x -> gamma_N p x = 1 - gamma_C p x.
Proof.
  intros H. unfold gamma_N, gamma_C, total.
  rewrite Rmax_left by lra. field. lra.
Qed.

Lemma np_sum_map_plus (f g : R -> R) xs :
  np_sum (map f xs) + np_sum (map g xs) = np_sum (map (fun x => f x + g x) xs).
Proof.
  induction xs as [|x xs IH]; simpl; [lra|].
  unfold np_sum in *. simpl. lra.
Qed.

Lemma np_sum_map_const_one (f : R -> R) xs :
  Forall (fun x => f x = 1) xs -> np_sum (map f xs) = len xs.
Proof.
  unfold len. induction 1 as [|x xs Hx _ IH].
  - reflexivity.
  - change (np_sum (map f (x :: xs))) with (f x + np_sum (map f xs)).
    rewrite IH, Hx. change (List.length (x :: xs)) with (S (List.length xs)).
    rewrite S_INR. lra.
Qed.

Lemma len_pos xs : xs <> [] -> 0 < len xs.
Proof.
  destruct xs as [|x xs]; [congruence|]. intros _.
  unfold len. apply lt_0_INR. simpl. lia.
Qed.

Lemma len_map (f : R -> R) xs : len (map f xs) = len xs.
Proof. unfold len. now rewrite List.length_map. Qed.

Lemma em_step_weights data p :
  data <> [] -> dense data p ->
  pi_N (em_step data p) + pi_C (em_step data p) = 1.
Proof.
  intros Hne Hd. unfold em_step.
  destruct (m_update data (gamma_C p) (mu_C p) (sigma_C p)) as [mc sc].
  destruct (m_update data (gamma_N p) (mu_N p) (sigma_N p)) as [mn sn].
  cbn [pi_N pi_C]. unfold mean_of. rewrite !len_map.
  pose proof (len_pos data Hne) as Hlen.
  replace (np_sum (map (gamma_N p) data) / len data +
           np_sum (map (gamma_C p) data) / len data)
    with ((np_sum (map (gamma_N p) data) + np_sum (map (gamma_C p) data)) / len data)
    by (field; lra).
  rewrite np_sum_map_plus.
  rewrite np_sum_map_const_one.
  - field. lra.
  - eapply List.Forall_impl; [|exact Hd]. cbv beta. intros x Hx.
    rewrite (gamma_sum_one p x Hx). lra.
Qed.

Lemma em_iterate_shift data p k :
  em_iterate data (em_step data p) k = em_iterate data p (S k).
Proof. unfold em_iterate. now rewrite Nat.iter_succ_r. Qed.

Lemma em_loop_last data tol r : forall iteration p logL,
  exists k, (k <= r)%nat /\
    fst (em_loop (S r) iteration data tol p logL) =
    em_step data (em_iterate data p k).
Proof.
  induction r as [|r IH]; intros iteration p logL.
  - exists 0%nat. split; [lia|]. simpl.
    destruct logL as [l0|]; [|reflexivity].
    destruct (Rlt_dec _ tol); reflexivity.
  - remember (S r) as r1 eqn:Hr1.
    cbn [em_loop].
    destruct (IH (S iteration) (em_step data p)
                (Some (log_likelihood data (em_step data p)))) as (k & Hk & Hres).
    subst r1.
    assert (Hcont : exists k0, (k0 <= S r)%nat /\
      fst (let '(res, evs) :=
             em_loop (S r) (S iteration) data tol (em_step data p)
               (Some (log_likelihood data (em_step data p))) in
           (res, IterLine (iteration + 1)
                   (log_likelihood data (em_step data p)) (em_step data p) :: evs))
      = em_step data (em_iterate data p k0)).
    { exists (S k). split; [lia|].
      destruct (em_loop (S r) (S iteration) data tol (em_step data p)
                  (Some (log_likelihood data (em_step data p)))) as [res evs].
      cbn [fst] in *. rewrite Hres, em_iterate_shift. reflexivity. }
    destruct logL as [l0|]; [|exact Hcont].
    destruct (Rlt_dec _ tol); [|exact Hcont].
    exists 0%nat. split; [lia|]. reflexivity.
Qed.

Lemma sqrt_2PI_bounds : 1 < sqrt (2 * PI) < 3.
Proof.
  pose proof PI2_1. pose proof PI_4.
  split.
  - rewrite <- sqrt_1 at 1. apply sqrt_lt_1_alt. lra.
  - replace 3 with (sqrt 9).
    + apply sqrt_lt_1_alt. lra.
    + replace 9 with (3 * 3) by lra. apply sqrt_square. lra.
Qed.

Lemma exp_nat_mult (n : nat) (x : R) : exp (INR n * x) = exp x ^ n.
Proof.
  induction n as [|n IH].
  - simpl. rewrite Rmult_0_l. apply exp_0.
  - rewrite S_INR, Rmult_plus_distr_r, Rmult_1_l, exp_plus, IH. simpl. ring.
Qed.

Lemma exp_minus_5000 : exp (- 5000) < 1e-11.
Proof.
  assert (H : 1e11 < exp 5000).
  { replace 5000 with (INR 10 * 500) by (simpl; lra).
    rewrite exp_nat_mult.
    pose proof (exp_ineq1_le 500) as H500.
    assert (H501 : 501 <= exp 500) by lra.
    apply Rlt_le_trans with (501 ^ 10).
    - simpl. lra.
    - apply pow_incr. lra. }
  replace (exp (- 5000)) with (/ exp 5000)
    by (rewrite <- exp_Ropp; f_equal; lra).
  replace 1e-11 with (/ 1e11) by lra.
  apply Rinv_lt_contravar; [|exact H].
  apply Rmult_lt_0_compat; [lra|]. apply exp_pos.
Qed.

Lemma norm_pdf_at_mean x : norm_pdf x x 1 = / sqrt (2 * PI).
Proof.
  unfold norm_pdf.
  replace (- ((x - x) / 1) ^ 2 / 2) with 0 by (simpl; field).
  rewrite exp_0. pose proof sqrt_2PI_bounds. field. lra.
Qed.

Lemma norm_pdf_far : norm_pdf 200 100 1 = exp (- 5000) / sqrt (2 * PI).
Proof.
  unfold norm_pdf.
  replace (- ((200 - 100) / 1) ^ 2 / 2) with (- 5000) by (simpl; field).
  pose proof sqrt_2PI_bounds. field. lra.
Qed.

Lemma p_floor_dense_100 : 1e-10 <= w_C p_floor 100 + w_N p_floor 100.
Proof.
  unfold w_C, w_N, p_floor. cbn [pi_C pi_N mu_C mu_N sigma_C sigma_N].
  rewrite norm_pdf_at_mean.
  pose proof sqrt_2PI_bounds as [H1 H3].
  assert (/ 3 < / sqrt (2 * PI)) by (apply Rinv_lt_contravar; nra).
  lra.
Qed.

Lemma p_floor_near : gamma_N p_floor 100 + gamma_C p_floor 100 = 1.
Proof. rewrite (gamma_sum_one _ _ p_floor_dense_100). lra. Qed.

Lemma p_floor_far :
  0 < gamma_N p_floor 200 /\ 0 < gamma_C p_floor 200 /\
  gamma_N p_floor 200 + gamma_C p_floor 200 < 1 / 10.
Proof.
  unfold gamma_N, gamma_C, total, w_C, w_N, p_floor.
  cbn [pi_C pi_N mu_C mu_N sigma_C sigma_N].
  rewrite norm_pdf_far.
  pose proof sqrt_2PI_bounds as [H1 H3].
  pose proof exp_minus_5000 as He. pose proof (exp_pos (- 5000)) as Hp.
  assert (Hb : 0 < exp (- 5000) / sqrt (2 * PI) < 1e-11).
  { split.
    - apply Rdiv_lt_0_compat; lra.
    - apply Rlt_trans with (exp (- 5000)); [|exact He].
      assert (Hinv : / sqrt (2 * PI) < / 1) by (apply Rinv_lt_contravar; lra).
      assert (Hinv0 : 0 < / sqrt (2 * PI)) by (apply Rinv_0_lt_compat; lra).
      unfold Rdiv. rewrite Rinv_1 in Hinv. nra. }
  set (b := exp (- 5000) / sqrt (2 * PI)) in *.
  rewrite Rmax_right by lra.
  lra.
Qed.

Lemma em_step_pi data p :
  pi_N (em_step data p) = mean_of (map (gamma_N p) data) /\
  pi_C (em_step data p) = mean_of (map (gamma_C p) data).
Proof.
  unfold em_step.
  destruct (m_update data (gamma_C p) (mu_C p) (sigma_C p)) as [mc sc].
  destruct (m_update data (gamma_N p) (mu_N p) (sigma_N p)) as [mn sn].
  split; reflexivity.
Qed.

Lemma em_mix_one_iteration x xs muN muC sigmaN sigmaC piN piC tol :
  fst (em_mix (x :: xs) muN muC sigmaN sigmaC piN piC tol 1) =
  em_result (em_step (x :: xs) (mkParams muN muC sigmaN sigmaC piN piC)).
Proof. reflexivity. Qed.

(** C1 fails as stated: from the valid parameters [p_floor] (weights
    1/2 and 1/2, deviations 1) and the sample (100, 200), the value 200
    is 100 deviations away from both means, the floor replaces the
    denominator and the responsibilities there add up to less than 1/10:
    the weights one iteration returns differ from 1 by more than 1e-9. *)
Lemma em_weights_counterexample :
  let '((_, _, _, _, piC', piN'), _) :=
    em_mix [100; 200] 100 100 1 1 (1 / 2) (1 / 2) (1 / 100) 1 in
  pi_N p_floor + pi_C p_floor = 1 /\ sigma_floor p_floor /\
  ~ (Rabs (piN' + piC' - 1) <= 1e-9) /\
  gamma_N p_floor 200 <> 1 - gamma_C p_floor 200.
Proof.
  pose proof (em_mix_one_iteration 100 [200] 100 100 1 1 (1 / 2) (1 / 2) (1 / 100)) as Hmix.
  destruct (em_mix [100; 200] 100 100 1 1 (1 / 2) (1 / 2) (1 / 100) 1)
    as [[[[[[mC mN] sC] sN] piC'] piN'] evs].
  cbn [fst] in Hmix. unfold em_result in Hmix.
  fold p_floor in Hmix.
  destruct (em_step_pi [100; 200] p_floor) as [HpN HpC].
  injection Hmix as _ _ _ _ HC HN.
  rewrite HpC in HC. rewrite HpN in HN.
  pose proof p_floor_near as Hnear.
  pose proof p_floor_far as (HfN & HfC & Hfar).
  unfold mean_of, np_sum, len in HC, HN. cbn in HC, HN.
  split; [unfold p_floor; cbn [pi_N pi_C]; lra|].
  split; [unfold sigma_floor, p_floor; cbn [sigma_N sigma_C]; lra|].
  split.
  - intros Habs. pose proof (Rle_abs (- (piN' + piC' - 1))) as Hle.
    rewrite Rabs_Ropp in Hle. lra.
  - lra.
Qed.

(** C1 (amended): as long as the floor on the E-step denominator does
    not bind at the start of an iteration, that iteration's
    responsibilities satisfy [gamma_N = 1 - gamma_C] at every sample value
    and the weights it produces sum to one; so do the weights [em_mix]
    returns when this holds at every iteration it may run. *)
Theorem em_weights_sum_dense (data : list R)
    (muN muC sigmaN sigmaC piN piC tol : R) (max_iter : nat) :
  data <> [] ->
  (forall k, (k < max_iter)%nat ->
     dense data (em_iterate data (mkParams muN muC sigmaN sigmaC piN piC) k)) ->
  (forall k, (k < max_iter)%nat ->
     let p := em_iterate data (mkParams muN muC sigmaN sigmaC piN piC) k in
     Forall (fun x => gamma_N p x = 1 - gamma_C p x) data /\
     pi_N (em_step data p) + pi_C (em_step data p) = 1) /\
  ((0 < max_iter)%nat ->
     let '((_, _, _, _, piC', piN'), _) :=
       em_mix data muN muC sigmaN sigmaC piN piC tol max_iter in
     piN' + piC' = 1).
Proof.
  intros Hne Hd. split.
  - intros k Hk p. specialize (Hd k Hk). fold p in Hd. split.
    + eapply List.Forall_impl; [|exact Hd]. intros x Hx.
      apply gamma_sum_one. exact Hx.
    + apply em_step_weights; assumption.
  - intros Hpos. destruct max_iter as [|r]; [lia|].
    unfold em_mix. destruct data as [|x xs]; [contradiction|].
    destruct (em_loop_last (x :: xs) tol r 0
                (mkParams muN muC sigmaN sigmaC piN piC) None) as (k & Hk & Hres).
    destruct (em_loop (S r) 0 (x :: xs) tol
                (mkParams muN muC sigmaN sigmaC piN piC) None) as [res evs].
    cbn [fst] in Hres. unfold em_result. subst res.
    apply em_step_weights; [discriminate|]. apply Hd. lia.
Qed.

Lemma em_weights_sum_dense_witness :
  (forall k, (k < 1)%nat ->
     let p := em_iterate [100] p_floor k in
     Forall (fun x => gamma_N p x = 1 - gamma_C p x) [100] /\
     pi_N (em_step [100] p) + pi_C (em_step [100] p) = 1) /\
  ((0 < 1)%nat ->
     let '((_, _, _, _, piC', piN'), _) :=
       em_mix [100] 100 100 1 1 (1 / 2) (1 / 2) (1 / 100) 1 in
     piN' + piC' = 1).
Proof.
  apply (em_weights_sum_dense [100] 100 100 1 1 (1 / 2) (1 / 2) (1 / 100) 1).
  - discriminate.
  - intros k Hk. assert (k = 0%nat) as -> by lia.
    constructor; [exact p_floor_dense_100|constructor].
Defined.

(** *** MixtureInitializer *)

(** Settle the comparisons between numerals that a concrete run makes. *)
Ltac decide_R :=
  repeat match goal with
  | |- context [Rle_dec ?a ?b] => destruct (Rle_dec a b); try (exfalso; lra)
  | |- context [Rlt_dec ?a ?b] => destruct (Rlt_dec a b); try (exfalso; lra)
  | |- context [Rgt_dec ?a ?b] => destruct (Rgt_dec a b); try (exfalso; lra)
  end.

Lemma scenario_sorted : np_sort scenario = scenario.
Proof.
  unfold scenario, np_sort.
  repeat (cbn [fold_right insert_sorted]; decide_R).
  reflexivity.
Qed.

Lemma Int_part_16_5 : Int_part ((INR 5 - 1) * (8 / 10 * 100 / 100)) = 3%Z.
Proof. symmetry. apply Int_part_spec. simpl. lra. Qed.

Lemma scenario_percentile : np_percentile scenario (8 / 10 * 100) = 3000.
Proof.
  unfold np_percentile. rewrite scenario_sorted.
  change (List.length scenario) with 5%nat.
  rewrite Int_part_16_5.
  change (Z.to_nat 3) with 3%nat. cbn [Nat.min Nat.sub Nat.add nth scenario].
  unfold np_lerp. decide_R; lra.
Qed.

Lemma scenario_groups :
  init_groups scenario (8 / 10) = (scenario, [100; 3000; 3000]).
Proof.
  unfold init_groups. rewrite scenario_percentile.
  unfold select_le, select_gt, scenario.
  repeat (cbn [List.filter]; decide_R).
  reflexivity.
Qed.

Lemma np_sum_scenario : np_sum scenario = 6300.
Proof. unfold np_sum, scenario. simpl. lra. Qed.

Lemma scenario_params :
  init_mu_N (init_params scenario (8 / 10)) = Some 1260 /\
  init_mu_C (init_params scenario (8 / 10)) = Some (6100 / 3) /\
  init_pi_N (init_params scenario (8 / 10)) = 1 /\
  init_pi_C (init_params scenario (8 / 10)) = 0.
Proof.
  unfold init_params. change scenario with [100; 100; 100; 3000; 3000] at 1.
  cbv iota. rewrite scenario_groups.
  cbn [init_mu_N init_mu_C init_pi_N init_pi_C].
  unfold np_mean, mean_of, np_sum, len, scenario. simpl.
  repeat split; try f_equal; field.
Qed.

(** C3 (amended): on the sample (100, 100, 100, 3000, 3000) with split
    fraction 0.8 the quantile is 3000, so the lower group is the whole
    sample and the upper group is empty; the fallback makes the upper
    group the positional tail (100, 3000, 3000); the means are
    [mu_N = 1260] and [mu_C = 6100/3]. *)
Theorem init_scenario :
  np_percentile scenario (8 / 10 * 100) = 3000 /\
  select_gt scenario 3000 = [] /\
  init_groups scenario (8 / 10) = (scenario, [100; 3000; 3000]) /\
  init_mu_N (init_params scenario (8 / 10)) = Some 1260 /\
  init_mu_C (init_params scenario (8 / 10)) = Some (6100 / 3).
Proof.
  split; [exact scenario_percentile|].
  split.
  { unfold select_gt, scenario. repeat (cbn [List.filter]; decide_R). reflexivity. }
  split; [exact scenario_groups|].
  destruct scenario_params as (HN & HC & _). split; assumption.
Qed.

(** C3 fails as stated: the split is not 4 lower / 1 upper, the
    quantile is not 100 and the means are not near 100 and 3000. *)
Lemma init_scenario_counterexample :
  let '(lower, upper) := init_groups scenario (8 / 10) in
  ~ (List.length lower = 4%nat /\ List.length upper = 1%nat) /\
  np_percentile scenario (8 / 10 * 100) <> 100 /\
  ~ (exists m, init_mu_N (init_params scenario (8 / 10)) = Some m /\
               Rabs (m - 100) <= 1) /\
  ~ (exists m, init_mu_C (init_params scenario (8 / 10)) = Some m /\
               Rabs (m - 3000) <= 1).
Proof.
  rewrite scenario_groups, scenario_percentile.
  destruct scenario_params as (-> & -> & _).
  split; [|split; [|split]].
  - intros [H _]. discriminate H.
  - lra.
  - intros (m & Hm & H). injection Hm as <-.
    pose proof (Rle_abs (1260 - 100)). lra.
  - intros (m & Hm & H). injection Hm as <-.
    pose proof (Rle_abs (- (6100 / 3 - 3000))) as Hle.
    rewrite Rabs_Ropp in Hle. lra.
Qed.

Lemma np_lerp_same a t : np_lerp a a t = a.
Proof. unfold np_lerp. destruct (Rle_dec (1 / 2) t); ring. Qed.

Lemma np_percentile_singleton x q : np_percentile [x] q = x.
Proof.
  unfold np_percentile. cbn [List.length np_sort fold_right insert_sorted].
  replace ((INR 1 - 1) * (q / 100)) with (INR 0) by (simpl; ring).
  rewrite Int_part_INR. cbn. apply np_lerp_same.
Qed.

(** C7 (the code at its failing input): on a sample of one value the
    quantile is that value, the upper selection is empty, and the
    fallback slice [data[max(1, 0):]] is empty as well: the upper group
    [init_params] takes its mean and deviation from has no element. *)
Theorem init_groups_singleton (x init_frac : R) :
  init_groups [x] init_frac = ([x], []).
Proof.
  unfold init_groups. rewrite np_percentile_singleton.
  unfold select_le, select_gt. cbn [List.filter].
  destruct (Rle_dec x x); [|lra]. destruct (Rgt_dec x x); [lra|].
  reflexivity.
Qed.

Lemma init_groups_nonempty (data : list R) (init_frac : R) :
  (2 <= List.length data)%nat ->
  fst (init_groups data init_frac) <> [] /\
  snd (init_groups data init_frac) <> [].
Proof.
  intros Hn. unfold init_groups. cbn [fst snd].
  set (q := np_percentile data (init_frac * 100)).
  assert (Hhalf : (1 <= Nat.max 1 (List.length data / 2) < List.length data)%nat).
  { pose proof (Nat.div_lt (List.length data) 2 ltac:(lia) ltac:(lia)). lia. }
  split.
  - destruct (Nat.eqb_spec (List.length (select_le data q)) 0) as [_|Hne].
    + intros Hnil. apply (f_equal (@List.length R)) in Hnil.
      rewrite List.length_firstn in Hnil. cbn [List.length] in Hnil. lia.
    + intros Hnil. rewrite Hnil in Hne. simpl in Hne. lia.
  - destruct (Nat.eqb_spec (List.length (select_gt data q)) 0) as [_|Hne].
    + intros Hnil. apply (f_equal (@List.length R)) in Hnil.
      rewrite List.length_skipn in Hnil. cbn [List.length] in Hnil. lia.
    + intros Hnil. rewrite Hnil in Hne. simpl in Hne. lia.
Qed.

(** *** PairCounter *)

Lemma record_names_cons line lines :
  record_names (line :: lines) =
  match parse_record line with
  | Some (qname, _, _) => qname :: record_names lines
  | None => record_names lines
  end.
Proof.
  unfold record_names. cbn [omap list_omap].
  destruct (parse_record line) as [[[q r] mt]|]; reflexivity.
Qed.

Lemma count_line_seen st line :
  seen (count_line st line) =
  match parse_record line with
  | Some (qname, _, _) => {[qname]} ∪ seen st
  | None => seen st
  end.
Proof.
  unfold count_line.
  destruct (parse_record line) as [[[q r] mt]|]; [|reflexivity].
  destruct (decide (q ∈ seen st)) as [Hin|Hout].
  - symmetry. apply subseteq_union_1_L, singleton_subseteq_l, Hin.
  - destruct (same_reference r mt); reflexivity.
Qed.

Lemma count_fold_seen lines : forall st,
  seen (fold_left count_line lines st) =
  seen st ∪ list_to_set (record_names lines).
Proof.
  induction lines as [|line lines IH]; intros st.
  - cbn. now rewrite union_empty_r_L.
  - cbn [fold_left]. rewrite IH, count_line_seen, record_names_cons.
    destruct (parse_record line) as [[[q r] mt]|]; [|reflexivity].
    rewrite list_to_set_cons, (union_comm_L {[q]} (seen st)).
    now rewrite union_assoc_L.
Qed.

Lemma count_line_total st line :
  (intra st + inter st)%nat = size (seen st) ->
  (intra (count_line st line) + inter (count_line st line))%nat =
  size (seen (count_line st line)).
Proof.
  intros Hst. unfold count_line.
  destruct (parse_record line) as [[[q r] mt]|]; [|exact Hst].
  destruct (decide (q ∈ seen st)) as [Hin|Hout]; [exact Hst|].
  assert (Hsz : size ({[q]} ∪ seen st) = S (size (seen st))).
  { rewrite size_union by (now apply disjoint_singleton_l).
    now rewrite size_singleton. }
  destruct (same_reference r mt); cbn [intra inter seen]; rewrite Hsz; lia.
Qed.

Lemma count_fold_total lines : forall st,
  (intra st + inter st)%nat = size (seen st) ->
  (intra (fold_left count_line lines st) +
   inter (fold_left count_line lines st))%nat =
  size (seen (fold_left count_line lines st)).
Proof.
  induction lines as [|line lines IH]; intros st Hst; [exact Hst|].
  cbn [fold_left]. apply IH, count_line_total, Hst.
Qed.

Lemma size_list_to_set_distinct (names : list string) :
  size (list_to_set names : gset string) = List.length (remove_dups names).
Proof.
  rewrite <- (size_list_to_set (C := gset string) (remove_dups names))
    by apply NoDup_remove_dups.
  f_equal. apply set_eq. intros x.
  rewrite !elem_of_list_to_set. now rewrite elem_of_remove_dups.
Qed.

Lemma count_lines_total lines :
  (fst (count_lines lines) + snd (count_lines lines))%nat =
  List.length (remove_dups (record_names lines)).
Proof.
  unfold count_lines. cbn [fst snd].
  rewrite count_fold_total by (cbn; now rewrite size_empty).
  rewrite count_fold_seen. cbn [seen].
  rewrite union_empty_l_L. apply size_list_to_set_distinct.
Qed.

(** Text lemmas: a rendered SAM record is read back column by column. *)

Lemma sam_char_facts c :
  sam_char c = true ->
  py_isspace c = false /\ Ascii.eqb c TAB = false /\ Ascii.eqb c LF = false.
Proof.
  destruct c as [[] [] [] [] [] [] [] []]; vm_compute; intros H;
    try discriminate H; repeat split; reflexivity.
Qed.

Lemma app_cons c a b : (String c a ++ b)%string = String c (a ++ b)%string.
Proof. reflexivity. Qed.

Lemma app_empty b : (EmptyString ++ b)%string = b.
Proof. reflexivity. Qed.

Lemma py_split_whole sep s : no_char sep s = true -> py_split sep s = [s].
Proof.
  induction s as [|c s IH]; intros H; [reflexivity|].
  cbn [no_char] in H. apply andb_true_iff in H as [Hc Hs].
  cbn [py_split]. apply negb_true_iff in Hc. now rewrite Hc, (IH Hs).
Qed.

Lemma py_split_app sep a rest :
  no_char sep a = true ->
  py_split sep (a ++ String sep rest) = a :: py_split sep rest.
Proof.
  induction a as [|c a IH]; intros H.
  - rewrite app_empty. cbn [py_split]. now rewrite Ascii.eqb_refl.
  - cbn [no_char] in H. apply andb_true_iff in H as [Hc Ha].
    rewrite app_cons. cbn [py_split]. apply negb_true_iff in Hc.
    now rewrite Hc, (IH Ha).
Qed.

Lemma no_char_app c a b :
  no_char c (a ++ b) = no_char c a && no_char c b.
Proof.
  induction a as [|x a IH]; [reflexivity|].
  rewrite app_cons. cbn [no_char]. rewrite IH. apply andb_assoc.
Qed.

Lemma sam_text_no_char s c :
  sam_text s = true -> sam_char c = false -> no_char c s = true.
Proof.
  intros Hs Hc. induction s as [|a s IH]; [reflexivity|].
  cbn [sam_text] in Hs. apply andb_true_iff in Hs as [Ha Hs].
  cbn [no_char]. rewrite (IH Hs), andb_true_r. apply negb_true_iff.
  destruct (Ascii.eqb_spec a c) as [->|_]; [congruence|reflexivity].
Qed.

Lemma sam_field_text s : sam_field s = true -> sam_text s = true /\ s <> EmptyString.
Proof.
  unfold sam_field. intros H. apply andb_true_iff in H as [Hne Ht].
  split; [exact Ht|]. intros ->. discriminate Hne.
Qed.

Lemma sam_line_cons x y rest :
  sam_line (x :: y :: rest) = (x ++ String TAB (sam_line (y :: rest)))%string.
Proof. reflexivity. Qed.

Lemma py_split_sam_line columns :
  columns <> [] -> Forall (fun c => sam_field c = true) columns ->
  py_split TAB (sam_line columns) = columns.
Proof.
  intros Hne Hall. induction Hall as [|x xs Hx Hxs IH]; [contradiction|].
  destruct (sam_field_text x Hx) as [Ht _].
  pose proof (sam_text_no_char x TAB Ht eq_refl) as Hno.
  destruct xs as [|y ys].
  - apply (py_split_whole TAB x Hno).
  - rewrite sam_line_cons, (py_split_app TAB x _ Hno). f_equal.
    apply IH. discriminate.
Qed.

Lemma no_newline_sam_line columns :
  Forall (fun c => sam_field c = true) columns ->
  no_char LF (sam_line columns) = true.
Proof.
  induction 1 as [|x xs Hx Hxs IH]; [reflexivity|].
  destruct (sam_field_text x Hx) as [Ht _].
  pose proof (sam_text_no_char x LF Ht eq_refl) as Hno.
  destruct xs as [|y ys]; [exact Hno|].
  rewrite sam_line_cons, no_char_app, Hno. cbn [no_char andb].
  exact IH.
Qed.

Lemma py_rstrip_app a b :
  py_rstrip b = b -> b <> EmptyString -> py_rstrip (a ++ b) = (a ++ b)%string.
Proof.
  intros Hb Hne. induction a as [|c a IH]; [exact Hb|].
  rewrite app_cons. cbn [py_rstrip]. rewrite IH.
  destruct (a ++ b)%string eqn:Hab; [|reflexivity].
  destruct a; [rewrite app_empty in Hab; contradiction|discriminate Hab].
Qed.

Lemma py_rstrip_text s :
  sam_text s = true -> s <> EmptyString -> py_rstrip s = s.
Proof.
  induction s as [|c s IH]; intros Ht Hne; [contradiction|].
  cbn [sam_text] in Ht. apply andb_true_iff in Ht as [Hc Hs].
  cbn [py_rstrip]. destruct s as [|d s'].
  - cbn [py_rstrip]. now rewrite (proj1 (sam_char_facts c Hc)).
  - rewrite (IH Hs) by discriminate. reflexivity.
Qed.

Lemma py_rstrip_sam_line columns :
  columns <> [] -> Forall (fun c => sam_field c = true) columns ->
  py_rstrip (sam_line columns) = sam_line columns /\
  sam_line columns <> EmptyString.
Proof.
  intros Hne Hall. induction Hall as [|x xs Hx Hxs IH]; [contradiction|].
  destruct (sam_field_text x Hx) as [Ht Hx0].
  destruct xs as [|y ys].
  - split; [apply py_rstrip_text; assumption|exact Hx0].
  - destruct (IH ltac:(discriminate)) as [Hr Hn].
    rewrite sam_line_cons. split.
    + apply py_rstrip_app; [|discriminate].
      apply (py_rstrip_app (String TAB EmptyString)); assumption.
    + destruct x; [contradiction|discriminate].
Qed.

Lemma py_strip_sam_line columns :
  columns <> [] -> Forall (fun c => sam_field c = true) columns ->
  py_strip (sam_line columns) = sam_line columns /\
  sam_line columns <> EmptyString.
Proof.
  intros Hne Hall.
  destruct (py_rstrip_sam_line columns Hne Hall) as [Hr Hn].
  split; [|exact Hn]. unfold py_strip.
  assert (Hl : py_lstrip (sam_line columns) = sam_line columns).
  { destruct Hall as [|x xs Hx Hxs]; [contradiction|].
    destruct (sam_field_text x Hx) as [Ht Hx0].
    destruct x as [|c x']; [contradiction|].
    cbn [sam_text] in Ht. apply andb_true_iff in Ht as [Hc _].
    destruct (sam_char_facts c Hc) as [Hsp _].
    destruct xs as [|y ys].
    - change (sam_line [String c x']) with (String c x').
      cbn [py_lstrip]. now rewrite Hsp.
    - rewrite sam_line_cons, app_cons. cbn [py_lstrip]. now rewrite Hsp. }
  rewrite Hl. exact Hr.
Qed.

Lemma sam_record_nonempty columns : sam_record columns -> columns <> [].
Proof. intros [Hlen _] ->. cbn in Hlen. lia. Qed.

Lemma line_columns_sam columns :
  sam_record columns ->
  line_columns (sam_line columns) = columns /\ is_record (sam_line columns) = true.
Proof.
  intros Hrec. pose proof (sam_record_nonempty columns Hrec) as Hne.
  destruct Hrec as [Hlen Hall].
  destruct (py_strip_sam_line columns Hne Hall) as [Hs Hn].
  unfold is_record, line_columns. rewrite Hs, (py_split_sam_line columns Hne Hall).
  split; [reflexivity|].
  destruct (String.eqb_spec (sam_line columns) EmptyString); [contradiction|].
  cbn [negb andb]. apply Nat.leb_le. exact Hlen.
Qed.

Lemma parse_record_columns line :
  parse_record line =
  if is_record line
  then Some (column 0 (line_columns line), column 2 (line_columns line),
             column 6 (line_columns line))
  else None.
Proof.
  unfold parse_record, is_record, line_columns, column.
  destruct (String.eqb (py_strip line) EmptyString); [reflexivity|].
  cbn [negb andb].
  destruct (Nat.ltb_spec (List.length (py_split TAB (py_strip line))) 7);
    destruct (Nat.leb_spec 7 (List.length (py_split TAB (py_strip line))));
    try lia; reflexivity.
Qed.

Lemma parse_record_sam columns :
  sam_record columns ->
  parse_record (sam_line columns) =
  Some (column 0 columns, column 2 columns, column 6 columns).
Proof.
  intros Hrec. rewrite parse_record_columns.
  destruct (line_columns_sam columns Hrec) as [-> ->]. reflexivity.
Qed.

Lemma record_names_stream lines : record_names lines = stream_names lines.
Proof.
  unfold stream_names. induction lines as [|line lines IH]; [reflexivity|].
  rewrite record_names_cons, parse_record_columns. cbn [List.filter].
  destruct (is_record line); [cbn [map]; now rewrite IH|exact IH].
Qed.

Lemma stream_names_sam records :
  Forall sam_record records ->
  stream_names (map sam_line records) = map (column 0) records.
Proof.
  unfold stream_names. induction 1 as [|r rs Hr Hrs IH]; [reflexivity|].
  cbn [map List.filter]. destruct (line_columns_sam r Hr) as [Hc ->].
  cbn [map]. now rewrite Hc, IH.
Qed.

Lemma py_split_sam_stdout records :
  Forall sam_record records ->
  py_split LF (sam_stdout records) = map sam_line records ++ [EmptyString].
Proof.
  induction 1 as [|r rs Hr Hrs IH]; [reflexivity|].
  cbn [sam_stdout fold_right map]. fold (sam_stdout rs).
  rewrite py_split_app by (apply no_newline_sam_line, Hr).
  rewrite IH. reflexivity.
Qed.

Lemma count_lines_blank_end lines :
  count_lines (lines ++ [EmptyString]) = count_lines lines.
Proof.
  unfold count_lines. rewrite fold_left_app. reflexivity.
Qed.

Lemma count_sam_stdout records :
  Forall sam_record records ->
  count_intra_inter_pairs (sam_stdout records) = count_lines (map sam_line records).
Proof.
  intros Hall. unfold count_intra_inter_pairs.
  rewrite (py_split_sam_stdout records Hall). apply count_lines_blank_end.
Qed.

(** C10: the two counts total the number of distinct pairs seen: for
    every text, [n + m] is the number of distinct read names (first
    column) among its lines that, blanks at the ends apart, are not empty
    and have at least 7 tab-separated columns; for every list of records
    as samtools prints them, [n + m] is the number of distinct first
    columns. *)
Theorem count_pairs_total (stdout : string) (records : list (list string)) :
  (let '(n, m) := count_intra_inter_pairs stdout in
   (n + m)%nat =
   List.length (remove_dups (stream_names (py_split LF stdout)))) /\
  (Forall sam_record records ->
   let '(n, m) := count_intra_inter_pairs (sam_stdout records) in
   (n + m)%nat = List.length (remove_dups (map (column 0) records))).
Proof.
  split.
  - unfold count_intra_inter_pairs.
    pose proof (count_lines_total (py_split LF stdout)) as H.
    rewrite record_names_stream in H.
    destruct (count_lines (py_split LF stdout)) as [n m]. exact H.
  - intros Hall. rewrite (count_sam_stdout records Hall).
    pose proof (count_lines_total (map sam_line records)) as H.
    rewrite record_names_stream, (stream_names_sam records Hall) in H.
    destruct (count_lines (map sam_line records)) as [n m]. exact H.
Qed.

(** A concrete column list is a record. *)
Ltac sam_record_ok :=
  split;
  [apply Nat.leb_le; reflexivity
  |apply List.Forall_forall, List.forallb_forall; reflexivity].

Lemma sample_records_ok :
  Forall sam_record [columns_fwd; columns_rev; columns_other].
Proof.
  repeat (apply List.Forall_cons; [sam_record_ok|]). constructor.
Qed.

Lemma count_pairs_total_witness :
  let '(n, m) :=
    count_intra_inter_pairs (sam_stdout [columns_fwd; columns_rev; columns_other]) in
  (n + m)%nat =
  List.length (remove_dups (map (column 0) [columns_fwd; columns_rev; columns_other])).
Proof.
  apply (proj2 (count_pairs_total EmptyString
                  [columns_fwd; columns_rev; columns_other])).
  exact sample_records_ok.
Defined.

Lemma same_reference_true rname mate_rname :
  mate_rname = "="%string \/ mate_rname = rname ->
  same_reference rname mate_rname = true.
Proof.
  unfold same_reference. intros [-> | ->].
  - reflexivity.
  - rewrite String.eqb_refl. apply orb_true_r.
Qed.

Lemma count_fold_inter lines : forall st,
  (forall l q r mt, In l lines -> parse_record l = Some (q, r, mt) ->
     mt = "="%string \/ mt = r) ->
  inter (fold_left count_line lines st) = inter st.
Proof.
  induction lines as [|line lines IH]; intros st Hsame; [reflexivity|].
  cbn [fold_left]. rewrite IH.
  - unfold count_line.
    destruct (parse_record line) as [[[q r] mt]|] eqn:Hp; [|reflexivity].
    destruct (decide (q ∈ seen st)); [reflexivity|].
    rewrite (same_reference_true r mt); [reflexivity|].
    apply (Hsame line q r mt); [now left|exact Hp].
  - intros l q r mt Hin. apply Hsame. now right.
Qed.

Lemma count_line_seen_before st line q r mt :
  parse_record line = Some (q, r, mt) -> q ∈ seen st ->
  count_line st line = st.
Proof.
  intros Hp Hin. unfold count_line. rewrite Hp.
  destruct (decide (q ∈ seen st)); [reflexivity|contradiction].
Qed.

(** C4: each read pair is counted once, keyed by the read name: for
    records as samtools prints them in which the mate's reference (column
    6) is [=] or the record's own reference (column 2), [n] is the number
    of distinct read names (column 0) and [m] is 0; and one more record,
    whatever its columns, for a read name already seen changes neither
    count. *)
Theorem count_pairs_once (records : list (list string)) :
  Forall sam_record records ->
  (forall columns, In columns records ->
     column 6 columns = "="%string \/ column 6 columns = column 2 columns) ->
  count_intra_inter_pairs (sam_stdout records) =
    (List.length (remove_dups (map (column 0) records)), 0%nat) /\
  (forall before after extra,
     records = before ++ after -> sam_record extra ->
     In (column 0 extra) (map (column 0) before) ->
     count_intra_inter_pairs (sam_stdout (before ++ extra :: after)) =
     count_intra_inter_pairs (sam_stdout records)).
Proof.
  intros Hall Hsame. split.
  - rewrite (count_sam_stdout records Hall).
    pose proof (count_lines_total (map sam_line records)) as Htot.
    rewrite record_names_stream, (stream_names_sam records Hall) in Htot.
    assert (Hm : inter (fold_left count_line (map sam_line records)
                          (mkPairState 0 0 ∅)) = 0%nat).
    { apply (count_fold_inter (map sam_line records) (mkPairState 0 0 ∅)).
      intros l q r mt Hin Hp. apply List.in_map_iff in Hin as (cols & <- & Hin).
      rewrite parse_record_sam in Hp
        by (apply (proj1 (List.Forall_forall _ _) Hall cols Hin)).
      injection Hp as _ <- <-. apply Hsame, Hin. }
    unfold count_lines in *. cbn [fst snd] in Htot. rewrite Hm in *.
    f_equal. lia.
  - intros before after extra -> Hextra Hseen.
    apply List.Forall_app in Hall as [Hb Ha].
    assert (Hall' : Forall sam_record (before ++ extra :: after)).
    { apply List.Forall_app. split; [exact Hb|]. constructor; assumption. }
    rewrite (count_sam_stdout _ Hall'),
      (count_sam_stdout _ (proj2 (List.Forall_app _ _ _) (conj Hb Ha))).
    rewrite !List.map_app. cbn [map]. unfold count_lines.
    rewrite !fold_left_app. cbn [fold_left].
    rewrite (count_line_seen_before _ (sam_line extra) _ _ _
               (parse_record_sam extra Hextra)); [reflexivity|].
    rewrite count_fold_seen, record_names_stream, (stream_names_sam before Hb).
    apply elem_of_union_r, elem_of_list_to_set. now apply list_elem_of_In.
Qed.

Lemma count_pairs_once_witness :
  count_intra_inter_pairs (sam_stdout [columns_fwd; columns_other]) =
    (List.length (remove_dups (map (column 0) [columns_fwd; columns_other])),
     0%nat) /\
  count_intra_inter_pairs
    (sam_stdout ([columns_fwd] ++ columns_rev :: [columns_other])) =
  count_intra_inter_pairs (sam_stdout [columns_fwd; columns_other]).
Proof.
  destruct (count_pairs_once [columns_fwd; columns_other]) as [Hcount Hdup].
  - repeat (apply List.Forall_cons; [sam_record_ok|]). constructor.
  - intros columns [<- | [<- | []]]; [left|right]; reflexivity.
  - split; [exact Hcount|].
    apply (Hdup [columns_fwd] [columns_other] columns_rev).
    + reflexivity.
    + sam_record_ok.
    + left. reflexivity.
Defined.

(** *** InsertSizeSampler *)

Lemma awk_insert_size_spec (line : string) (t : Z) :
  parse_int (nth 8 (awk_fields line) EmptyString) = Some t -> t <> 0%Z ->
  (awk_insert_size line = Some (Z.abs t) <-> (0 < Z.abs t < 5000)%Z) /\
  (awk_insert_size line = None <-> ~ (0 < Z.abs t < 5000)%Z).
Proof.
  intros Hp Hnz. unfold awk_insert_size. rewrite Hp.
  destruct (Z.eqb_spec t 0) as [|_]; [contradiction|].
  destruct (Z.ltb_spec (-5000) t), (Z.ltb_spec t 5000), (Z.ltb_spec t 0);
    cbn [negb andb]; split; split; intros Hres; try discriminate; try lia;
    try reflexivity; f_equal; lia.
Qed.

(** C9 (the code at its failing input): with [top_k = 1] the only
    whitelisted name is [k141_1]; a record mapped to contig [k141_10]
    contains that name as a substring, passes [grep -F] and has its
    insert size sampled. *)
Theorem sampler_substring_match :
  firstn 1 whitelist = ["k141_1"%string] /\
  parse_record rec_fwd = Some ("r1", "k141_10", "=")%string /\
  ~ In "k141_10"%string (firstn 1 whitelist) /\
  sampler_kept [rec_fwd] 1 whitelist = [rec_fwd] /\
  sample_insert_sizes [rec_fwd] 1 whitelist = [300%Z].
Proof.
  split; [reflexivity|]. split; [vm_compute; reflexivity|].
  split; [intros [H | []]; discriminate H|].
  split; vm_compute; reflexivity.
Qed.

(** ** Further properties of the code *)

(** *** EMFitter: what every iteration preserves *)

Lemma em_loop_invariant (P : MixtureParams -> Prop) data tol :
  (forall p, P p -> P (em_step data p)) ->
  forall remaining iteration p logL,
    P p -> P (fst (em_loop remaining iteration data tol p logL)).
Proof.
  intros Hstep. induction remaining as [|r IH]; intros iteration p logL Hp.
  - exact Hp.
  - cbn [em_loop].
    specialize (IH (S iteration) (em_step data p)
                   (Some (log_likelihood data (em_step data p))) (Hstep p Hp)).
    destruct (em_loop r (S iteration) data tol (em_step data p)
                (Some (log_likelihood data (em_step data p)))) as [res evs].
    destruct logL as [l0|]; [|exact IH].
    destruct (Rlt_dec _ tol); [apply Hstep, Hp|exact IH].
Qed.

Lemma em_mix_invariant (P : MixtureParams -> Prop) data
    muN muC sigmaN sigmaC piN piC tol max_iter :
  data <> [] ->
  (forall p, P p -> P (em_step data p)) ->
  P (mkParams muN muC sigmaN sigmaC piN piC) ->
  exists p, P p /\
    fst (em_mix data muN muC sigmaN sigmaC piN piC tol max_iter) = em_result p.
Proof.
  intros Hne Hstep H0. unfold em_mix. destruct data as [|x xs]; [contradiction|].
  pose proof (em_loop_invariant P (x :: xs) tol Hstep max_iter 0 _ None H0) as H.
  destruct (em_loop max_iter 0 (x :: xs) tol
              (mkParams muN muC sigmaN sigmaC piN piC) None) as [res evs].
  exists res. split; [exact H|reflexivity].
Qed.

Lemma norm_pdf_pos x loc scale : 0 < scale -> 0 < norm_pdf x loc scale.
Proof.
  intros Hs. unfold norm_pdf. pose proof sqrt_2PI_bounds as [H1 _].
  apply Rdiv_lt_0_compat; [|exact Hs].
  apply Rdiv_lt_0_compat; [apply exp_pos|lra].
Qed.

Lemma weights_nonneg p x :
  weights_ok p -> 0 <= w_C p x /\ 0 <= w_N p x.
Proof.
  intros (HN & HC & _ & HsN & HsC). unfold w_C, w_N.
  pose proof (norm_pdf_pos x (mu_C p) (sigma_C p) HsC).
  pose proof (norm_pdf_pos x (mu_N p) (sigma_N p) HsN).
  split; apply Rmult_le_pos; lra.
Qed.

Lemma total_pos p x : 0 < total p x /\ w_C p x + w_N p x <= total p x.
Proof.
  unfold total. pose proof (Rmax_l (w_C p x + w_N p x) 1e-10).
  pose proof (Rmax_r (w_C p x + w_N p x) 1e-10). split; lra.
Qed.

Lemma gamma_bounds p x :
  weights_ok p ->
  0 <= gamma_C p x /\ 0 <= gamma_N p x /\ gamma_C p x + gamma_N p x <= 1.
Proof.
  intros Hok. destruct (weights_nonneg p x Hok) as [HC HN].
  destruct (total_pos p x) as [Ht Hle]. unfold gamma_C, gamma_N.
  assert (Hinv : 0 < / total p x) by (apply Rinv_0_lt_compat, Ht).
  unfold Rdiv. repeat split.
  - apply Rmult_le_pos; lra.
  - apply Rmult_le_pos; lra.
  - rewrite <- Rmult_plus_distr_r.
    apply Rmult_le_reg_r with (total p x); [exact Ht|].
    rewrite Rmult_assoc, Rinv_l by lra. lra.
Qed.

Lemma np_sum_map_nonneg (f : R -> R) xs :
  (forall x, In x xs -> 0 <= f x) -> 0 <= np_sum (map f xs).
Proof.
  induction xs as [|x xs IH]; intros Hf; [cbn; lra|].
  change (np_sum (map f (x :: xs))) with (f x + np_sum (map f xs)).
  pose proof (Hf x (or_introl eq_refl)).
  assert (0 <= np_sum (map f xs)) by (apply IH; intros y Hy; apply Hf; now right).
  lra.
Qed.

Lemma np_sum_map_le_len (f : R -> R) xs :
  (forall x, In x xs -> f x <= 1) -> np_sum (map f xs) <= len xs.
Proof.
  unfold len. induction xs as [|x xs IH]; intros Hf; [cbn; lra|].
  change (np_sum (map f (x :: xs))) with (f x + np_sum (map f xs)).
  change (List.length (x :: xs)) with (S (List.length xs)). rewrite S_INR.
  pose proof (Hf x (or_introl eq_refl)).
  assert (np_sum (map f xs) <= INR (List.length xs))
    by (apply IH; intros y Hy; apply Hf; now right).
  lra.
Qed.

Lemma m_update_sigma_pos data g mu sigma :
  0 < sigma -> 0 < snd (m_update data g mu sigma).
Proof.
  intros H. unfold m_update.
  destruct (Rgt_dec (np_sum (map g data)) 0); cbn [snd]; [|exact H].
  pose proof (py_max_floor
    (sqrt (np_sum (map (fun x => g x * (x - np_sum (map (fun x0 => g x0 * x0) data)
                                           / np_sum (map g data)) ^ 2) data)
           / np_sum (map g data))) 1e-6).
  lra.
Qed.

Lemma em_step_weights_ok data p :
  data <> [] -> weights_ok p -> weights_ok (em_step data p).
Proof.
  intros Hne Hok. pose proof (len_pos data Hne) as Hlen.
  destruct (em_step_pi data p) as [HpN HpC].
  assert (Hsig : 0 < sigma_N (em_step data p) /\ 0 < sigma_C (em_step data p)).
  { destruct Hok as (_ & _ & _ & HsN & HsC). unfold em_step.
    pose proof (m_update_sigma_pos data (gamma_C p) (mu_C p) (sigma_C p) HsC).
    pose proof (m_update_sigma_pos data (gamma_N p) (mu_N p) (sigma_N p) HsN).
    destruct (m_update data (gamma_C p) (mu_C p) (sigma_C p)) as [mc sc].
    destruct (m_update data (gamma_N p) (mu_N p) (sigma_N p)) as [mn sn].
    cbn in *. split; assumption. }
  destruct Hsig as [HsN' HsC'].
  unfold weights_ok. rewrite HpN, HpC. unfold mean_of. rewrite !len_map.
  assert (HsumN : 0 <= np_sum (map (gamma_N p) data))
    by (apply np_sum_map_nonneg; intros x _; apply (gamma_bounds p x Hok)).
  assert (HsumC : 0 <= np_sum (map (gamma_C p) data))
    by (apply np_sum_map_nonneg; intros x _; apply (gamma_bounds p x Hok)).
  assert (Hsum : np_sum (map (gamma_N p) data) + np_sum (map (gamma_C p) data)
                 <= len data).
  { rewrite np_sum_map_plus. apply np_sum_map_le_len.
    intros x _. pose proof (gamma_bounds p x Hok). lra. }
  assert (Hinv : 0 < / len data) by (apply Rinv_0_lt_compat, Hlen).
  unfold Rdiv. repeat split; try assumption.
  - apply Rmult_le_pos; lra.
  - apply Rmult_le_pos; lra.
  - rewrite <- Rmult_plus_distr_r.
    apply Rmult_le_reg_r with (len data); [exact Hlen|].
    rewrite Rmult_assoc, Rinv_l by lra. lra.
Qed.

(** X1: from non-negative weights totalling at most one and positive
    deviations, the weights [em_mix] returns are non-negative and total at
    most one, and the deviations it returns are positive. *)
Theorem em_mix_weights_ok (data : list R)
    (muN muC sigmaN sigmaC piN piC tol : R) (max_iter : nat) :
  data <> [] ->
  0 <= piN -> 0 <= piC -> piN + piC <= 1 -> 0 < sigmaN -> 0 < sigmaC ->
  let '((_, _, sC, sN, piC', piN'), _) :=
    em_mix data muN muC sigmaN sigmaC piN piC tol max_iter in
  0 <= piN' /\ 0 <= piC' /\ piN' + piC' <= 1 /\ 0 < sN /\ 0 < sC.
Proof.
  intros Hne HN HC Hsum HsN HsC.
  destruct (em_mix_invariant weights_ok data muN muC sigmaN sigmaC piN piC
              tol max_iter Hne (fun p => em_step_weights_ok data p Hne))
    as (p & Hp & Hres).
  { unfold weights_ok. cbn. repeat split; assumption. }
  destruct (em_mix data muN muC sigmaN sigmaC piN piC tol max_iter)
    as [[[[[[mC mN] sC] sN] piC'] piN'] evs].
  cbn [fst] in Hres. unfold em_result in Hres.
  injection Hres as -> -> -> -> -> ->. exact Hp.
Qed.

Lemma em_mix_weights_ok_witness :
  let '((_, _, sC, sN, piC', piN'), _) :=
    em_mix [100; 3000] 100 3000 1 1 (1 / 2) (1 / 2) (1 / 100) 100 in
  0 <= piN' /\ 0 <= piC' /\ piN' + piC' <= 1 /\ 0 < sN /\ 0 < sC.
Proof.
  apply (em_mix_weights_ok [100; 3000] 100 3000 1 1 (1 / 2) (1 / 2) (1 / 100) 100);
    try lra.
  discriminate.
Defined.

Lemma weighted_sum_bounds (g : R -> R) (a b : R) xs :
  (forall x, In x xs -> a <= x <= b) -> (forall x, In x xs -> 0 <= g x) ->
  a * np_sum (map g xs) <= np_sum (map (fun x => g x * x) xs)
    <= b * np_sum (map g xs).
Proof.
  induction xs as [|x xs IH]; intros Hx Hg; [cbn; lra|].
  change (np_sum (map g (x :: xs))) with (g x + np_sum (map g xs)).
  change (np_sum (map (fun y => g y * y) (x :: xs)))
    with (g x * x + np_sum (map (fun y => g y * y) xs)).
  pose proof (Hx x (or_introl eq_refl)) as Hxx.
  pose proof (Hg x (or_introl eq_refl)) as Hgx.
  assert (IH' : a * np_sum (map g xs) <= np_sum (map (fun y => g y * y) xs)
                <= b * np_sum (map g xs)).
  { apply IH; intros y Hy; [apply Hx|apply Hg]; now right. }
  split; nra.
Qed.

Lemma m_update_mean_within data g mu sigma a b :
  (forall x, In x data -> a <= x <= b) -> (forall x, In x data -> 0 <= g x) ->
  a <= mu <= b -> a <= fst (m_update data g mu sigma) <= b.
Proof.
  intros Hx Hg Hmu. unfold m_update.
  destruct (Rgt_dec (np_sum (map g data)) 0) as [Hpos|_]; cbn [fst]; [|exact Hmu].
  pose proof (weighted_sum_bounds g a b data Hx Hg) as [Hlo Hhi].
  assert (Hinv : 0 < / np_sum (map g data)) by (apply Rinv_0_lt_compat; lra).
  unfold Rdiv. split.
  - apply Rmult_le_reg_r with (np_sum (map g data)); [lra|].
    rewrite Rmult_assoc, Rinv_l by lra. lra.
  - apply Rmult_le_reg_r with (np_sum (map g data)); [lra|].
    rewrite Rmult_assoc, Rinv_l by lra. lra.
Qed.

Lemma em_step_means_within data a b p :
  (forall x, In x data -> a <= x <= b) ->
  weights_ok p -> means_within a b p -> means_within a b (em_step data p).
Proof.
  intros Hx Hok [HmN HmC]. unfold means_within, em_step.
  pose proof (m_update_mean_within data (gamma_C p) (mu_C p) (sigma_C p) a b Hx
                (fun x _ => proj1 (gamma_bounds p x Hok)) HmC) as HC.
  pose proof (m_update_mean_within data (gamma_N p) (mu_N p) (sigma_N p) a b Hx
                (fun x _ => proj1 (proj2 (gamma_bounds p x Hok))) HmN) as HN.
  destruct (m_update data (gamma_C p) (mu_C p) (sigma_C p)) as [mc sc].
  destruct (m_update data (gamma_N p) (mu_N p) (sigma_N p)) as [mn sn].
  cbn in *. split; assumption.
Qed.

(** X2: when every sample value and both initial means lie in [[a, b]]
    (weights non-negative and totalling at most one, deviations positive),
    both means [em_mix] returns lie in [[a, b]]: a fitted mean never leaves
    the range of the sample. *)
Theorem em_mix_means_within (data : list R) (a b : R)
    (muN muC sigmaN sigmaC piN piC tol : R) (max_iter : nat) :
  data <> [] ->
  (forall x, In x data -> a <= x <= b) ->
  a <= muN <= b -> a <= muC <= b ->
  0 <= piN -> 0 <= piC -> piN + piC <= 1 -> 0 < sigmaN -> 0 < sigmaC ->
  let '((mC, mN, _, _, _, _), _) :=
    em_mix data muN muC sigmaN sigmaC piN piC tol max_iter in
  a <= mN <= b /\ a <= mC <= b.
Proof.
  intros Hne Hx HmN HmC HN HC Hsum HsN HsC.
  destruct (em_mix_invariant (fun p => weights_ok p /\ means_within a b p)
              data muN muC sigmaN sigmaC piN piC tol max_iter Hne)
    as (p & [_ Hp] & Hres).
  { intros p [Hok Hm]. split.
    - apply em_step_weights_ok; assumption.
    - apply em_step_means_within; assumption. }
  { split; [unfold weights_ok; cbn; repeat split; assumption|].
    split; assumption. }
  destruct (em_mix data muN muC sigmaN sigmaC piN piC tol max_iter)
    as [[[[[[mC mN] sC] sN] piC'] piN'] evs].
  cbn [fst] in Hres. unfold em_result in Hres.
  injection Hres as -> -> -> -> -> ->. exact Hp.
Qed.

Lemma em_mix_means_within_witness :
  let '((mC, mN, _, _, _, _), _) :=
    em_mix [100; 3000] 100 3000 1 1 (1 / 2) (1 / 2) (1 / 100) 100 in
  0 <= mN <= 5000 /\ 0 <= mC <= 5000.
Proof.
  apply (em_mix_means_within [100; 3000] 0 5000 100 3000 1 1 (1 / 2) (1 / 2)
           (1 / 100) 100); try lra.
  - discriminate.
  - intros x [<- | [<- | []]]; lra.
Defined.

(** *** EMFitter: a component without weight *)

Lemma np_sum_map_zero (f : R -> R) xs :
  (forall x, f x = 0) -> np_sum (map f xs) = 0.
Proof.
  intros Hf. induction xs as [|x xs IH]; [reflexivity|].
  change (np_sum (map f (x :: xs))) with (f x + np_sum (map f xs)).
  rewrite Hf, IH. lra.
Qed.

Lemma m_update_zero data g mu sigma :
  (forall x, g x = 0) -> m_update data g mu sigma = (mu, sigma).
Proof.
  intros Hg. unfold m_update. rewrite (np_sum_map_zero g data Hg).
  destruct (Rgt_dec 0 0); [lra|reflexivity].
Qed.

Lemma em_step_frozen_C data p :
  pi_C p = 0 ->
  mu_C (em_step data p) = mu_C p /\ sigma_C (em_step data p) = sigma_C p /\
  pi_C (em_step data p) = 0.
Proof.
  intros H0.
  assert (Hg : forall x, gamma_C p x = 0).
  { intros x. unfold gamma_C, w_C. rewrite H0. unfold Rdiv. ring. }
  destruct (em_step_pi data p) as [_ HpC]. rewrite HpC.
  unfold em_step. rewrite (m_update_zero data (gamma_C p) _ _ Hg).
  destruct (m_update data (gamma_N p) (mu_N p) (sigma_N p)) as [mn sn].
  cbn [mu_C sigma_C]. repeat split.
  unfold mean_of. rewrite (np_sum_map_zero _ data Hg). unfold Rdiv. ring.
Qed.

Lemma em_step_frozen_N data p :
  pi_N p = 0 ->
  mu_N (em_step data p) = mu_N p /\ sigma_N (em_step data p) = sigma_N p /\
  pi_N (em_step data p) = 0.
Proof.
  intros H0.
  assert (Hg : forall x, gamma_N p x = 0).
  { intros x. unfold gamma_N, w_N. rewrite H0. unfold Rdiv. ring. }
  destruct (em_step_pi data p) as [HpN _]. rewrite HpN.
  unfold em_step. rewrite (m_update_zero data (gamma_N p) _ _ Hg).
  destruct (m_update data (gamma_C p) (mu_C p) (sigma_C p)) as [mc sc].
  cbn [mu_N sigma_N]. repeat split.
  unfold mean_of. rewrite (np_sum_map_zero _ data Hg). unfold Rdiv. ring.
Qed.

(** X3: with positive deviations, a component that starts with weight
    0 is never fitted: [em_mix] returns its initial mean and deviation and
    weight 0, for every sample, tolerance and iteration cap. *)
Theorem em_mix_zero_weight_frozen (data : list R)
    (muN muC sigmaN sigmaC piN piC tol : R) (max_iter : nat) :
  0 < sigmaN -> 0 < sigmaC ->
  let '((mC, mN, sC, sN, piC', piN'), _) :=
    em_mix data muN muC sigmaN sigmaC piN piC tol max_iter in
  (piC = 0 -> mC = muC /\ sC = sigmaC /\ piC' = 0) /\
  (piN = 0 -> mN = muN /\ sN = sigmaN /\ piN' = 0).
Proof.
  intros _ _. destruct data as [|x xs].
  { cbn. split; intros ->; repeat split. }
  set (p0 := mkParams muN muC sigmaN sigmaC piN piC).
  assert (HC : piC = 0 ->
    exists p, (mu_C p = muC /\ sigma_C p = sigmaC /\ pi_C p = 0) /\
      fst (em_mix (x :: xs) muN muC sigmaN sigmaC piN piC tol max_iter) = em_result p).
  { intros H0.
    apply (em_mix_invariant
             (fun p => mu_C p = muC /\ sigma_C p = sigmaC /\ pi_C p = 0));
      [discriminate| |cbn; auto].
    intros p (Hm & Hs & Hpi).
    destruct (em_step_frozen_C (x :: xs) p Hpi) as (Hm' & Hs' & Hpi').
    rewrite Hm', Hs', Hm, Hs. auto. }
  assert (HN : piN = 0 ->
    exists p, (mu_N p = muN /\ sigma_N p = sigmaN /\ pi_N p = 0) /\
      fst (em_mix (x :: xs) muN muC sigmaN sigmaC piN piC tol max_iter) = em_result p).
  { intros H0.
    apply (em_mix_invariant
             (fun p => mu_N p = muN /\ sigma_N p = sigmaN /\ pi_N p = 0));
      [discriminate| |cbn; auto].
    intros p (Hm & Hs & Hpi).
    destruct (em_step_frozen_N (x :: xs) p Hpi) as (Hm' & Hs' & Hpi').
    rewrite Hm', Hs', Hm, Hs. auto. }
  destruct (em_mix (x :: xs) muN muC sigmaN sigmaC piN piC tol max_iter)
    as [[[[[[mC mN] sC] sN] piC'] piN'] evs].
  cbn [fst] in HC, HN. unfold em_result in HC, HN. split.
  - intros H0. destruct (HC H0) as (p & Hp & Hres).
    injection Hres as -> -> -> -> -> ->. exact Hp.
  - intros H0. destruct (HN H0) as (p & Hp & Hres).
    injection Hres as -> -> -> -> -> ->. exact Hp.
Qed.

Lemma em_mix_zero_weight_frozen_witness :
  let '((mC, mN, sC, sN, piC', piN'), _) :=
    em_mix scenario 1260 (6100 / 3) 1500 1600 1 0 (1 / 100) 100 in
  mC = 6100 / 3 /\ sC = 1600 /\ piC' = 0.
Proof.
  pose proof (em_mix_zero_weight_frozen scenario 1260 (6100 / 3) 1500 1600 1 0
                (1 / 100) 100 ltac:(lra) ltac:(lra)) as H.
  destruct (em_mix scenario 1260 (6100 / 3) 1500 1600 1 0 (1 / 100) 100)
    as [[[[[[mC mN] sC] sN] piC'] piN'] evs].
  apply (proj1 H). reflexivity.
Defined.

(** *** EMFitter: how long the loop runs *)

Lemma em_loop_run data tol r : forall iteration p logL,
  exists k,
    (Nat.min 1 r <= k <= r)%nat /\
    fst (em_loop r iteration data tol p logL) = em_iterate data p k /\
    List.length (snd (em_loop r iteration data tol p logL)) = k /\
    ((k < r)%nat ->
       exists l', prev_logL data p logL k = Some l' /\
         Rabs (log_likelihood data (em_iterate data p k) - l') < tol).
Proof.
  induction r as [|r IH]; intros iteration p logL.
  - exists 0%nat. cbn. repeat split; try lia.
  - cbn [em_loop].
    destruct (IH (S iteration) (em_step data p)
                (Some (log_likelihood data (em_step data p))))
      as (k & Hk & Hres & Hlen & Hconv).
    assert (Hcont : exists k0,
      (Nat.min 1 (S r) <= k0 <= S r)%nat /\
      fst (let '(res, evs) :=
             em_loop r (S iteration) data tol (em_step data p)
               (Some (log_likelihood data (em_step data p))) in
           (res, IterLine (iteration + 1)
                   (log_likelihood data (em_step data p)) (em_step data p) :: evs))
        = em_iterate data p k0 /\
      List.length (snd (let '(res, evs) :=
             em_loop r (S iteration) data tol (em_step data p)
               (Some (log_likelihood data (em_step data p))) in
           (res, IterLine (iteration + 1)
                   (log_likelihood data (em_step data p)) (em_step data p) :: evs)))
        = k0 /\
      ((k0 < S r)%nat ->
         exists l', prev_logL data p logL k0 = Some l' /\
           Rabs (log_likelihood data (em_iterate data p k0) - l') < tol)).
    { exists (S k).
      destruct (em_loop r (S iteration) data tol (em_step data p)
                  (Some (log_likelihood data (em_step data p)))) as [res evs].
      cbn [fst snd] in *. split; [lia|]. split.
      { rewrite Hres. apply em_iterate_shift. }
      split; [cbn [List.length]; lia|].
      intros Hlt. destruct Hconv as (l' & Hprev & Habs); [lia|].
      rewrite em_iterate_shift in Habs.
      destruct k as [|[|j]].
      - discriminate Hprev.
      - cbn [prev_logL] in Hprev. exists l'. split; [|exact Habs].
        cbn [prev_logL]. exact Hprev.
      - cbn [prev_logL] in Hprev |- *. rewrite em_iterate_shift in Hprev.
        exists l'. split; assumption. }
    destruct logL as [l0|]; [|exact Hcont].
    destruct (Rlt_dec (Rabs (log_likelihood data (em_step data p) - l0)) tol)
      as [Hlt|_]; [|exact Hcont].
    exists 1%nat. cbn [fst snd List.length]. split; [lia|].
    split; [reflexivity|]. split; [reflexivity|].
    intros _. exists l0. split; [reflexivity|exact Hlt].
Qed.

(** X4: on a non-empty sample [em_mix] runs some number [k] of
    iterations with [min(2, max_iter) <= k <= max_iter], returns the
    parameters after exactly [k] passes of the loop body and prints one
    line per pass; it stops before the cap only when the last two
    log-likelihoods differ by less than [tol]. *)
Theorem em_mix_iterations (data : list R)
    (muN muC sigmaN sigmaC piN piC tol : R) (max_iter : nat) :
  data <> [] ->
  let p0 := mkParams muN muC sigmaN sigmaC piN piC in
  exists k,
    (Nat.min 2 max_iter <= k <= max_iter)%nat /\
    fst (em_mix data muN muC sigmaN sigmaC piN piC tol max_iter) =
      em_result (em_iterate data p0 k) /\
    List.length (snd (em_mix data muN muC sigmaN sigmaC piN piC tol max_iter)) = k /\
    ((k < max_iter)%nat ->
       Rabs (log_likelihood data (em_iterate data p0 k) -
             log_likelihood data (em_iterate data p0 (k - 1))) < tol).
Proof.
  intros Hne p0. unfold em_mix. destruct data as [|x xs]; [contradiction|].
  fold p0. destruct max_iter as [|r].
  { exists 0%nat. cbn. repeat split; lia. }
  cbn [em_loop].
  destruct (em_loop_run (x :: xs) tol r 1 (em_step (x :: xs) p0)
              (Some (log_likelihood (x :: xs) (em_step (x :: xs) p0))))
    as (k & Hk & Hres & Hlen & Hconv).
  destruct (em_loop r 1 (x :: xs) tol (em_step (x :: xs) p0)
              (Some (log_likelihood (x :: xs) (em_step (x :: xs) p0))))
    as [res evs].
  cbn [fst snd] in *. exists (S k). split; [lia|]. split.
  { rewrite Hres, em_iterate_shift. reflexivity. }
  split; [cbn [List.length]; lia|].
  intros Hlt. destruct Hconv as (l' & Hprev & Habs); [lia|].
  rewrite em_iterate_shift in Habs.
  replace (S k - 1)%nat with k by lia.
  destruct k as [|[|j]].
  - discriminate Hprev.
  - cbn [prev_logL] in Hprev. injection Hprev as <-. exact Habs.
  - cbn [prev_logL] in Hprev. rewrite em_iterate_shift in Hprev.
    injection Hprev as <-. exact Habs.
Qed.

Lemma em_mix_iterations_witness :
  exists k,
    (Nat.min 2 100 <= k <= 100)%nat /\
    fst (em_mix [100; 3000] 100 3000 1 1 (1 / 2) (1 / 2) (1 / 100) 100) =
      em_result (em_iterate [100; 3000] (mkParams 100 3000 1 1 (1 / 2) (1 / 2)) k) /\
    List.length (snd (em_mix [100; 3000] 100 3000 1 1 (1 / 2) (1 / 2) (1 / 100) 100)) = k /\
    ((k < 100)%nat ->
       Rabs (log_likelihood [100; 3000]
               (em_iterate [100; 3000] (mkParams 100 3000 1 1 (1 / 2) (1 / 2)) k) -
             log_likelihood [100; 3000]
               (em_iterate [100; 3000] (mkParams 100 3000 1 1 (1 / 2) (1 / 2)) (k - 1)))
       < 1 / 100).
Proof.
  apply (em_mix_iterations [100; 3000] 100 3000 1 1 (1 / 2) (1 / 2) (1 / 100) 100).
  discriminate.
Defined.

(** *** MixtureInitializer: what it returns on every sample *)

Lemma select_le_length data q :
  (List.length (select_le data q) <= List.length data)%nat.
Proof. unfold select_le. apply List.filter_length_le. Qed.

Lemma init_lower_length data init_frac :
  data <> [] ->
  (0 < List.length (fst (init_groups data init_frac)) <= List.length data)%nat.
Proof.
  intros Hne. unfold init_groups. cbn [fst].
  set (q := np_percentile data (init_frac * 100)).
  destruct (Nat.eqb_spec (List.length (select_le data q)) 0) as [_|Hnz].
  - rewrite List.length_firstn. destruct data as [|x xs]; [contradiction|].
    cbn [List.length]. lia.
  - pose proof (select_le_length data q). lia.
Qed.

Lemma init_fraction_bounds data init_frac :
  data <> [] ->
  0 < len (fst (init_groups data init_frac)) / len data <= 1.
Proof.
  intros Hne.
  pose proof (init_lower_length data init_frac Hne) as [Hpos Hle].
  assert (Hlen : 0 < len data) by (apply len_pos, Hne).
  assert (Hl0 : 0 < len (fst (init_groups data init_frac)))
    by (unfold len; apply lt_0_INR; lia).
  assert (Hl1 : len (fst (init_groups data init_frac)) <= len data)
    by (unfold len; apply le_INR; lia).
  assert (Hinv : 0 < / len data) by (apply Rinv_0_lt_compat, Hlen).
  unfold Rdiv. split.
  - apply Rmult_lt_0_compat; assumption.
  - apply Rmult_le_reg_r with (len data); [exact Hlen|].
    rewrite Rmult_assoc, Rinv_l by lra. lra.
Qed.

Lemma py_max_nan_floor a b s : py_max_nan a b = Some s -> b <= s.
Proof.
  destruct a as [x|]; cbn [py_max_nan option_map]; [|discriminate].
  intros H. injection H as <-. apply py_max_floor.
Qed.

Lemma np_mean_none xs : np_mean xs = None <-> xs = [].
Proof. destruct xs; cbn [np_mean]; split; congruence. Qed.

Lemma np_std1_none xs b :
  py_max_nan (np_std1 xs) b = None <-> (List.length xs < 2)%nat.
Proof.
  destruct xs as [|x [|y ys]]; cbn [np_std1 py_max_nan option_map List.length];
    split; intros H; try reflexivity; try lia; discriminate H.
Qed.

(** X5: for every non-empty sample and split fraction in [[0, 1]],
    [init_params] returns weights with [0 < pi_N <= 1], [0 <= pi_C < 1]
    and [pi_N + pi_C = 1]; [mu_N] is a number, [mu_C] is NaN exactly when
    the upper group is empty; each deviation is NaN exactly when its group
    has fewer than two values, and is at least 1 otherwise. *)
Theorem init_params_valid (data : list R) (init_frac : R) :
  data <> [] -> 0 <= init_frac <= 1 ->
  let p := init_params data init_frac in
  let '(lower, upper) := init_groups data init_frac in
  0 < init_pi_N p <= 1 /\ 0 <= init_pi_C p < 1 /\
  init_pi_N p + init_pi_C p = 1 /\
  init_mu_N p <> None /\
  (init_mu_C p = None <-> upper = []) /\
  (init_sigma_N p = None <-> (List.length lower < 2)%nat) /\
  (init_sigma_C p = None <-> (List.length upper < 2)%nat) /\
  (forall s, init_sigma_N p = Some s -> 1 <= s) /\
  (forall s, init_sigma_C p = Some s -> 1 <= s).
Proof.
  intros Hne _ p. unfold p, init_params.
  pose proof (init_fraction_bounds data init_frac Hne) as Hf.
  pose proof (init_lower_length data init_frac Hne) as [Hpos _].
  destruct data as [|x xs]; [contradiction|].
  destruct (init_groups (x :: xs) init_frac) as [lower upper].
  cbn [fst] in Hf, Hpos.
  cbn [init_pi_N init_pi_C init_mu_N init_mu_C init_sigma_N init_sigma_C].
  split; [lra|]. split; [lra|]. split; [lra|]. split.
  { rewrite np_mean_none. intros ->. cbn in Hpos. lia. }
  split; [apply np_mean_none|].
  split; [apply np_std1_none|]. split; [apply np_std1_none|].
  split; intros s; apply py_max_nan_floor.
Qed.

Lemma init_params_valid_witness :
  let p := init_params scenario (8 / 10) in
  let '(lower, upper) := init_groups scenario (8 / 10) in
  0 < init_pi_N p <= 1 /\ 0 <= init_pi_C p < 1 /\
  init_pi_N p + init_pi_C p = 1 /\
  init_mu_N p <> None /\
  (init_mu_C p = None <-> upper = []) /\
  (init_sigma_N p = None <-> (List.length lower < 2)%nat) /\
  (init_sigma_C p = None <-> (List.length upper < 2)%nat) /\
  (forall s, init_sigma_N p = Some s -> 1 <= s) /\
  (forall s, init_sigma_C p = Some s -> 1 <= s).
Proof.
  apply (init_params_valid scenario (8 / 10)); [discriminate|lra].
Defined.

Lemma init_params_finite_ok data init_frac mN mC sN sC :
  init_mu_N (init_params data init_frac) = Some mN ->
  init_mu_C (init_params data init_frac) = Some mC ->
  init_sigma_N (init_params data init_frac) = Some sN ->
  init_sigma_C (init_params data init_frac) = Some sC ->
  let p := mkParams mN mC sN sC (init_pi_N (init_params data init_frac))
                    (init_pi_C (init_params data init_frac)) in
  weights_ok p /\ sigma_floor p.
Proof.
  unfold weights_ok, sigma_floor, init_params. destruct data as [|x xs].
  { cbn [init_pi_N init_pi_C init_mu_N init_mu_C init_sigma_N init_sigma_C
         pi_N pi_C sigma_N sigma_C].
    intros H1 H2 H3 H4.
    injection H1 as <-. injection H2 as <-. injection H3 as <-. injection H4 as <-.
    lra. }
  pose proof (init_fraction_bounds (x :: xs) init_frac ltac:(discriminate)) as Hf.
  destruct (init_groups (x :: xs) init_frac) as [lower upper].
  cbn [fst] in Hf.
  cbn [init_pi_N init_pi_C init_mu_N init_mu_C init_sigma_N init_sigma_C
       pi_N pi_C sigma_N sigma_C].
  intros _ _ HsN HsC.
  apply py_max_nan_floor in HsN, HsC. repeat split; lra.
Qed.

(** X6: [main]'s composition of the two: for every sample and split
    fraction in [[0, 1]] for which [init_params] returns numbers (no NaN),
    and every tolerance and iteration cap, the fit started from these
    parameters gives deviations of at least 1e-6 and non-negative weights
    totalling at most one. *)
Theorem init_then_em_valid (data : list R) (init_frac tol : R) (max_iter : nat)
    (mN mC sN sC : R) :
  0 <= init_frac <= 1 ->
  let p := init_params data init_frac in
  init_mu_N p = Some mN -> init_mu_C p = Some mC ->
  init_sigma_N p = Some sN -> init_sigma_C p = Some sC ->
  let '((_, _, sC', sN', piC', piN'), _) :=
    em_mix data mN mC sN sC (init_pi_N p) (init_pi_C p) tol max_iter in
  1e-6 <= sN' /\ 1e-6 <= sC' /\ 0 <= piN' /\ 0 <= piC' /\ piN' + piC' <= 1.
Proof.
  intros _ p H1 H2 H3 H4.
  destruct (init_params_finite_ok data init_frac mN mC sN sC H1 H2 H3 H4)
    as [Hok Hfl].
  fold p in Hok, Hfl. clearbody p. destruct data as [|x xs].
  { cbn [em_mix]. destruct Hok as (Hp1 & Hp2 & Hp3 & _). destruct Hfl as [Hp4 Hp5].
    cbn [pi_N pi_C sigma_N sigma_C] in *. repeat split; assumption. }
  destruct (em_mix_invariant (fun q => sigma_floor q /\ weights_ok q)
              (x :: xs) mN mC sN sC (init_pi_N p) (init_pi_C p)
              tol max_iter ltac:(discriminate))
    as (q & [[HfN HfC] (Hq1 & Hq2 & Hq3 & _)] & Hres).
  { intros q [Hf Hq]. split.
    - apply em_step_floor, Hf.
    - apply em_step_weights_ok; [discriminate|exact Hq]. }
  { split; [exact Hfl|exact Hok]. }
  destruct (em_mix (x :: xs) mN mC sN sC (init_pi_N p) (init_pi_C p) tol max_iter)
    as [[[[[[mC' mN'] sC'] sN'] piC'] piN'] evs].
  cbn [fst] in Hres. unfold em_result in Hres.
  injection Hres as -> -> -> -> -> ->. repeat split; assumption.
Qed.

Lemma init_then_em_valid_witness :
  let p := init_params scenario (8 / 10) in
  let '((_, _, sC', sN', piC', piN'), _) :=
    em_mix scenario (mean_of scenario) (mean_of [100; 3000; 3000])
           (py_max (std1_of scenario) 1) (py_max (std1_of [100; 3000; 3000]) 1)
           (init_pi_N p) (init_pi_C p) (1 / 100) 100 in
  1e-6 <= sN' /\ 1e-6 <= sC' /\ 0 <= piN' /\ 0 <= piC' /\ piN' + piC' <= 1.
Proof.
  apply (init_then_em_valid scenario (8 / 10) (1 / 100) 100); [lra|..];
    unfold init_params; change scenario with [100; 100; 100; 3000; 3000] at 1;
    cbv iota; rewrite scenario_groups; reflexivity.
Defined.

Lemma init_groups_subset data init_frac :
  (forall x, In x (fst (init_groups data init_frac)) -> In x data) /\
  (forall x, In x (snd (init_groups data init_frac)) -> In x data).
Proof.
  unfold init_groups. cbn [fst snd].
  set (q := np_percentile data (init_frac * 100)). split; intros x Hx.
  - destruct (Nat.eqb (List.length (select_le data q)) 0).
    + rewrite <- (List.firstn_skipn (Nat.max 1 (List.length data / 2)) data).
      apply List.in_or_app. now left.
    + unfold select_le in Hx. apply List.filter_In in Hx. tauto.
  - destruct (Nat.eqb (List.length (select_gt data q)) 0).
    + rewrite <- (List.firstn_skipn (Nat.max 1 (List.length data / 2)) data).
      apply List.in_or_app. now right.
    + unfold select_gt in Hx. apply List.filter_In in Hx. tauto.
Qed.

(** X7: on a sample of at least two values both groups [init_params]
    averages over are non-empty, and each holds sample values only. *)
Theorem init_groups_two_values (data : list R) (init_frac : R) :
  (2 <= List.length data)%nat ->
  let '(lower, upper) := init_groups data init_frac in
  lower <> [] /\ upper <> [] /\
  (forall x, In x lower -> In x data) /\ (forall x, In x upper -> In x data).
Proof.
  intros Hn. pose proof (init_groups_nonempty data init_frac Hn) as [Hl Hu].
  pose proof (init_groups_subset data init_frac) as [Hsl Hsu].
  destruct (init_groups data init_frac) as [lower upper].
  cbn [fst snd] in *. repeat split; assumption.
Qed.

Lemma init_groups_two_values_witness :
  let '(lower, upper) := init_groups scenario (8 / 10) in
  lower <> [] /\ upper <> [] /\
  (forall x, In x lower -> In x scenario) /\ (forall x, In x upper -> In x scenario).
Proof.
  apply (init_groups_two_values scenario (8 / 10)). cbn. lia.
Defined.

(** *** MixtureInitializer: the quantile and the lower group *)

Lemma In_insert_sorted y x xs : In y (insert_sorted x xs) <-> y = x \/ In y xs.
Proof.
  induction xs as [|z zs IH]; cbn [insert_sorted].
  - cbn. intuition.
  - destruct (Rle_dec x z); cbn [In] in *; intuition.
Qed.

Lemma In_np_sort y xs : In y (np_sort xs) <-> In y xs.
Proof.
  unfold np_sort. induction xs as [|x xs IH]; cbn [fold_right]; [tauto|].
  rewrite In_insert_sorted. cbn [In]. intuition.
Qed.

Lemma length_insert_sorted x xs :
  List.length (insert_sorted x xs) = S (List.length xs).
Proof.
  induction xs as [|z zs IH]; cbn [insert_sorted]; [reflexivity|].
  destruct (Rle_dec x z); cbn [List.length]; [reflexivity|]. now rewrite IH.
Qed.

Lemma length_np_sort xs : List.length (np_sort xs) = List.length xs.
Proof.
  unfold np_sort. induction xs as [|x xs IH]; [reflexivity|].
  cbn [fold_right]. rewrite length_insert_sorted. cbn [List.length]. now rewrite IH.
Qed.

Lemma np_lerp_lower m lo hi t :
  m <= lo -> m <= hi -> 0 <= t <= 1 -> m <= np_lerp lo hi t.
Proof.
  intros Hlo Hhi Ht. unfold np_lerp.
  destruct (Rle_dec (1 / 2) t); nra.
Qed.

Lemma list_min_exists (xs : list R) :
  xs <> [] -> exists m, In m xs /\ forall x, In x xs -> m <= x.
Proof.
  induction xs as [|x xs IH]; [congruence|]. intros _.
  destruct xs as [|y ys].
  - exists x. split; [now left|]. intros z [<- | []]. lra.
  - destruct (IH ltac:(discriminate)) as (m & Hin & Hmin).
    destruct (Rle_dec x m) as [Hle|Hgt].
    + exists x. split; [now left|]. intros z [<- | Hz]; [lra|].
      specialize (Hmin z Hz). lra.
    + exists m. split; [now right|]. intros z [<- | Hz]; [lra|].
      apply Hmin, Hz.
Qed.

Lemma frac_index_bounds v :
  0 <= v -> 0 <= v - INR (Z.to_nat (Int_part v)) <= 1.
Proof.
  intros Hv. destruct (base_Int_part v) as [Hle Hgt].
  assert (Hz : (0 <= Int_part v)%Z).
  { apply Z.lt_succ_r. apply lt_IZR. rewrite succ_IZR. lra. }
  rewrite INR_IZR_INZ, Z2Nat.id by exact Hz. lra.
Qed.

Lemma np_percentile_lower data q m :
  data <> [] -> 0 <= q -> (forall x, In x data -> m <= x) ->
  m <= np_percentile data q.
Proof.
  intros Hne Hq Hmin. unfold np_percentile.
  assert (Hn : (0 < List.length data)%nat)
    by (destruct data; [contradiction|cbn; lia]).
  assert (Hnth : forall i, (i <= List.length data - 1)%nat ->
                   m <= nth i (np_sort data) 0).
  { intros i Hi. apply Hmin, In_np_sort, nth_In. rewrite length_np_sort. lia. }
  apply np_lerp_lower.
  - apply Hnth, Nat.le_min_r.
  - apply Hnth, Nat.le_min_r.
  - apply frac_index_bounds.
    assert (1 <= INR (List.length data)).
    { replace 1 with (INR 1) by reflexivity. apply le_INR. lia. }
    apply Rmult_le_pos; [lra|]. unfold Rdiv. lra.
Qed.

(** X8: on a non-empty sample with a split fraction of at least 0 the
    quantile is never below the smallest sample value, so the selection
    [data[data <= q]] is never empty and the lower group is that
    selection: the positional fallback for the lower group never runs. *)
Theorem init_lower_is_selection (data : list R) (init_frac : R) :
  data <> [] -> 0 <= init_frac ->
  let q := np_percentile data (init_frac * 100) in
  select_le data q <> [] /\ fst (init_groups data init_frac) = select_le data q.
Proof.
  intros Hne Hf q.
  destruct (list_min_exists data Hne) as (m & Hin & Hmin).
  assert (Hq : m <= q) by (apply np_percentile_lower; [assumption|lra|assumption]).
  assert (Hsel : In m (select_le data q)).
  { unfold select_le. apply List.filter_In. split; [exact Hin|].
    destruct (Rle_dec m q); [reflexivity|contradiction]. }
  assert (Hnil : select_le data q <> []).
  { intros Heq. rewrite Heq in Hsel. exact Hsel. }
  split; [exact Hnil|].
  unfold init_groups. cbn [fst]. fold q.
  destruct (Nat.eqb_spec (List.length (select_le data q)) 0) as [H0|_];
    [|reflexivity].
  destruct (select_le data q); [contradiction|discriminate H0].
Qed.

Lemma init_lower_is_selection_witness :
  let q := np_percentile scenario (8 / 10 * 100) in
  select_le scenario q <> [] /\
  fst (init_groups scenario (8 / 10)) = select_le scenario q.
Proof.
  apply (init_lower_is_selection scenario (8 / 10)); [discriminate|lra].
Defined.

(** *** PairCounter: skipped lines, first records, growth *)

Lemma parse_record_malformed line :
  py_strip line = EmptyString \/
  (List.length (py_split TAB (py_strip line)) < 7)%nat ->
  parse_record line = None.
Proof.
  unfold parse_record. intros [-> | Hshort]; [reflexivity|].
  destruct (String.eqb (py_strip line) EmptyString); [reflexivity|].
  destruct (Nat.ltb_spec (List.length (py_split TAB (py_strip line))) 7);
    [reflexivity|lia].
Qed.

Lemma count_line_skip st line : parse_record line = None -> count_line st line = st.
Proof. intros Hp. unfold count_line. now rewrite Hp. Qed.

(** X9: a blank line, or a line with fewer than 7 tab-separated fields,
    is skipped wherever it stands in the stream: both counts are what they
    are without it. *)
Theorem count_lines_skips_malformed (before after : list string) (line : string) :
  py_strip line = EmptyString \/
  (List.length (py_split TAB (py_strip line)) < 7)%nat ->
  count_lines (before ++ line :: after) = count_lines (before ++ after).
Proof.
  intros Hbad. unfold count_lines. rewrite !fold_left_app. cbn [fold_left].
  rewrite (count_line_skip _ line (parse_record_malformed line Hbad)).
  reflexivity.
Qed.

Lemma count_lines_skips_malformed_witness :
  count_lines ([rec_fwd] ++ String TAB "r9" :: [rec_other]) =
  count_lines ([rec_fwd] ++ [rec_other]).
Proof.
  apply (count_lines_skips_malformed [rec_fwd] [rec_other] (String TAB "r9")).
  right. vm_compute. lia.
Defined.

Lemma count_fold_distinct lines : forall st,
  NoDup (record_names lines) ->
  (forall q, In q (record_names lines) -> q ∉ seen st) ->
  intra (fold_left count_line lines st) =
    (intra st +
     List.length (List.filter
       (fun l => match parse_record l with
                 | Some (_, r, mt) => same_reference r mt
                 | None => false
                 end) lines))%nat /\
  inter (fold_left count_line lines st) =
    (inter st +
     List.length (List.filter
       (fun l => match parse_record l with
                 | Some (_, r, mt) => negb (same_reference r mt)
                 | None => false
                 end) lines))%nat.
Proof.
  induction lines as [|line lines IH]; intros st Hnd Hfresh.
  - cbn. lia.
  - cbn [fold_left List.filter]. rewrite record_names_cons in Hnd, Hfresh.
    unfold count_line at 2 4.
    destruct (parse_record line) as [[[q r] mt]|] eqn:Hp.
    + apply NoDup_cons in Hnd as [Hq Hnd].
      pose proof (Hfresh q (or_introl eq_refl)) as Hqs.
      destruct (decide (q ∈ seen st)) as [Hin|_]; [contradiction|].
      assert (Hfresh' : forall q', In q' (record_names lines) ->
                          q' ∉ {[q]} ∪ seen st).
      { intros q' Hq' Hin. apply elem_of_union in Hin as [Hin|Hin].
        - apply elem_of_singleton in Hin. subst q'.
          apply Hq. now apply list_elem_of_In.
        - apply (Hfresh q'); [now right|exact Hin]. }
      destruct (same_reference r mt); cbn [negb];
        match goal with
        | |- context [fold_left count_line lines ?s] =>
            destruct (IH s Hnd Hfresh') as [Hi He]
        end; rewrite Hi, He; cbn [intra inter List.length]; lia.
    + apply IH; assumption.
Qed.

Lemma filter_sam_lines (f : string -> bool) (g : list string -> bool) records :
  (forall columns, sam_record columns -> f (sam_line columns) = g columns) ->
  Forall sam_record records ->
  List.length (List.filter f (map sam_line records)) =
  List.length (List.filter g records).
Proof.
  intros Hfg. induction 1 as [|r rs Hr Hrs IH]; [reflexivity|].
  cbn [map List.filter]. rewrite (Hfg r Hr).
  destruct (g r); cbn [List.length]; now rewrite IH.
Qed.

(** X10: when the records, as samtools prints them, carry pairwise
    distinct read names (column 0), [n] is the number of records whose
    column 6 is [=] or equal to their column 2, and [m] is the number of
    the other records. *)
Theorem count_lines_distinct_names (records : list (list string)) :
  Forall sam_record records ->
  NoDup (map (column 0) records) ->
  count_intra_inter_pairs (sam_stdout records) =
  (List.length (List.filter intra_columns records),
   List.length (List.filter (fun columns => negb (intra_columns columns)) records)).
Proof.
  intros Hall Hnd. rewrite (count_sam_stdout records Hall). unfold count_lines.
  destruct (count_fold_distinct (map sam_line records) (mkPairState 0 0 ∅))
    as [Hi He].
  { rewrite record_names_stream, (stream_names_sam records Hall). exact Hnd. }
  { intros q _. apply not_elem_of_empty. }
  rewrite Hi, He. cbn [intra inter Nat.add]. f_equal.
  - apply filter_sam_lines; [|exact Hall].
    intros columns Hrec. now rewrite (parse_record_sam columns Hrec).
  - apply filter_sam_lines; [|exact Hall].
    intros columns Hrec. now rewrite (parse_record_sam columns Hrec).
Qed.

Lemma count_lines_distinct_names_witness :
  count_intra_inter_pairs (sam_stdout [columns_fwd; columns_other]) =
  (List.length (List.filter intra_columns [columns_fwd; columns_other]),
   List.length (List.filter (fun columns => negb (intra_columns columns))
                  [columns_fwd; columns_other])).
Proof.
  apply (count_lines_distinct_names [columns_fwd; columns_other]).
  - repeat (apply List.Forall_cons; [sam_record_ok|]). constructor.
  - repeat constructor.
    + intros H. apply list_elem_of_In in H. destruct H as [H|[]]. discriminate H.
    + intros H. apply list_elem_of_In in H. destruct H.
Defined.

Lemma count_line_growth st line :
  (intra st <= intra (count_line st line))%nat /\
  (inter st <= inter (count_line st line))%nat /\
  (intra (count_line st line) + inter (count_line st line)
     <= intra st + inter st + 1)%nat.
Proof.
  unfold count_line.
  destruct (parse_record line) as [[[q r] mt]|]; [|lia].
  destruct (decide (q ∈ seen st)); [lia|].
  destruct (same_reference r mt); cbn [intra inter]; lia.
Qed.

Lemma count_fold_growth more : forall st,
  (intra st <= intra (fold_left count_line more st))%nat /\
  (inter st <= inter (fold_left count_line more st))%nat /\
  (intra (fold_left count_line more st) + inter (fold_left count_line more st)
     <= intra st + inter st + List.length more)%nat.
Proof.
  induction more as [|line more IH]; intros st; [cbn; lia|].
  cbn [fold_left List.length].
  pose proof (count_line_growth st line). pose proof (IH (count_line st line)).
  lia.
Qed.

(** X11: reading further lines never lowers a count, and each further
    line adds at most one pair to the two counts together; in particular
    [n + m] never exceeds the number of lines read. *)
Theorem count_lines_growth (lines more : list string) :
  let '(n, m) := count_lines lines in
  let '(n', m') := count_lines (lines ++ more) in
  (n <= n' /\ m <= m' /\ n' + m' <= n + m + List.length more)%nat /\
  (n + m <= List.length lines)%nat.
Proof.
  unfold count_lines. rewrite fold_left_app.
  pose proof (count_fold_growth more (fold_left count_line lines (mkPairState 0 0 ∅))).
  pose proof (count_fold_growth lines (mkPairState 0 0 ∅)) as H0.
  cbn [intra inter] in H0. split; lia.
Qed.

(** *** InsertSizeSampler: range, whitelist, fallback *)

(** X12: for a line whose column 9 reads as the integer [t], the awk
    program prints a value exactly when [t] is non-zero and strictly
    between -5000 and 5000, and the value printed is [|t|]. *)
Theorem awk_insert_size_iff (line : string) (t v : Z) :
  parse_int (nth 8 (awk_fields line) EmptyString) = Some t ->
  awk_insert_size line = Some v <->
  (t <> 0 /\ -5000 < t < 5000 /\ v = Z.abs t)%Z.
Proof.
  intros Hp. unfold awk_insert_size. rewrite Hp.
  destruct (Z.eqb_spec t 0) as [H0|H0]; cbn [negb andb].
  { split; [discriminate|]. intros [Hne _]. contradiction. }
  destruct (Z.ltb_spec (-5000) t) as [Hlo|Hlo]; cbn [andb].
  2:{ split; [discriminate|]. intros (_ & Hr & _). lia. }
  destruct (Z.ltb_spec t 5000) as [Hhi|Hhi].
  2:{ split; [discriminate|]. intros (_ & Hr & _). lia. }
  destruct (Z.ltb_spec t 0) as [Hneg|Hpos].
  - split.
    + intros Hv. injection Hv as <-. lia.
    + intros (_ & _ & ->). f_equal. lia.
  - split.
    + intros Hv. injection Hv as <-. lia.
    + intros (_ & _ & ->). f_equal. lia.
Qed.

Lemma awk_insert_size_iff_witness :
  awk_insert_size rec_rev = Some 300%Z <->
  (-300 <> 0 /\ -5000 < -300 < 5000 /\ 300 = Z.abs (-300))%Z.
Proof.
  apply (awk_insert_size_iff rec_rev (-300) 300). vm_compute. reflexivity.
Defined.

Lemma awk_insert_size_range line v :
  awk_insert_size line = Some v -> (0 < v < 5000)%Z.
Proof.
  unfold awk_insert_size.
  destruct (parse_int (nth 8 (awk_fields line) EmptyString)) as [t|];
    [|discriminate].
  destruct (Z.eqb_spec t 0); cbn [negb andb]; [discriminate|].
  destruct (Z.ltb_spec (-5000) t); cbn [andb]; [|discriminate].
  destruct (Z.ltb_spec t 5000); [|discriminate].
  destruct (Z.ltb_spec t 0); intros Hv; injection Hv as <-; lia.
Qed.

Lemma omap_awk_range (lines : list string) :
  Forall (fun v => (0 < v < 5000)%Z) (omap awk_insert_size lines).
Proof.
  apply List.Forall_forall. intros v Hv. apply list_elem_of_In in Hv.
  apply list_elem_of_omap in Hv as (line & _ & Hline).
  apply (awk_insert_size_range line v Hline).
Qed.

(** X13: whatever the alignments and the whitelist, the sample written
    to [insert_size.txt] is never empty and every value in it lies
    strictly between 0 and 5000. *)
Theorem sample_insert_sizes_range (bam : list string) (top_k : nat)
    (contig_sort : list string) :
  sample_insert_sizes bam top_k contig_sort <> [] /\
  Forall (fun v => (0 < v < 5000)%Z) (sample_insert_sizes bam top_k contig_sort).
Proof.
  unfold sample_insert_sizes.
  pose proof (omap_awk_range (sampler_kept bam top_k contig_sort)) as Hall.
  destruct (omap awk_insert_size (sampler_kept bam top_k contig_sort)) as [|v vs].
  - split; [discriminate|]. repeat constructor; lia.
  - split; [discriminate|exact Hall].
Qed.

Lemma prefix_empty s : String.prefix EmptyString s = true.
Proof. destruct s; reflexivity. Qed.

Lemma prefix_cons c s1 s2 :
  String.prefix s1 s2 = true -> String.prefix (String c s1) (String c s2) = true.
Proof.
  intros H. cbn [String.prefix].
  destruct (ascii_dec c c); [exact H|contradiction].
Qed.

Lemma py_split_nonempty sep s : py_split sep s <> [].
Proof.
  destruct s as [|c s]; cbn [py_split]; [discriminate|].
  destruct (Ascii.eqb c sep); [discriminate|].
  destruct (py_split sep s); discriminate.
Qed.

Lemma py_split_head_prefix sep s : forall w ws,
  py_split sep s = w :: ws -> String.prefix w s = true.
Proof.
  induction s as [|c s IH]; intros w ws Hs; cbn [py_split] in Hs.
  - injection Hs as <- _. reflexivity.
  - destruct (Ascii.eqb c sep).
    + injection Hs as <- _. reflexivity.
    + destruct (py_split sep s) as [|w' ws'] eqn:Hs'.
      * injection Hs as <- _. apply prefix_cons, prefix_empty.
      * injection Hs as <- _. apply prefix_cons. apply (IH w' ws'). reflexivity.
Qed.

Lemma contains_field sep s f : In f (py_split sep s) -> contains f s = true.
Proof.
  induction s as [|c s IH]; cbn [py_split]; intros Hin.
  - destruct Hin as [<- | []]. reflexivity.
  - cbn [contains]. destruct (Ascii.eqb c sep).
    + destruct Hin as [<- | Hin]; [reflexivity|].
      rewrite (IH Hin). apply orb_true_r.
    + destruct (py_split sep s) as [|w ws] eqn:Hs.
      * exfalso. exact (py_split_nonempty sep s Hs).
      * destruct Hin as [<- | Hin].
        -- rewrite (prefix_cons c w s (py_split_head_prefix sep s w ws Hs)).
           reflexivity.
        -- rewrite (IH (or_intror Hin)). apply orb_true_r.
Qed.

(** X14: the lines handed to awk are exactly the SAM lines that contain
    one of the first [top_k] whitelist names as a substring; among them is
    every line whose reference column (the third one) is one of these
    names. *)
Theorem sampler_kept_whitelisted (bam : list string) (top_k : nat)
    (contig_sort : list string) (line : string) :
  (In line (sampler_kept bam top_k contig_sort) <->
   In line bam /\
   exists name, In name (firstn top_k contig_sort) /\ contains name line = true) /\
  (In line bam -> (3 <= List.length (py_split TAB line))%nat ->
   In (nth 2 (py_split TAB line) EmptyString) (firstn top_k contig_sort) ->
   In line (sampler_kept bam top_k contig_sort)).
Proof.
  assert (Hiff : In line (sampler_kept bam top_k contig_sort) <->
    In line bam /\
    exists name, In name (firstn top_k contig_sort) /\ contains name line = true).
  { unfold sampler_kept, grep_F. rewrite List.filter_In, List.existsb_exists.
    reflexivity. }
  split; [exact Hiff|].
  intros Hin Hlen Hname. apply Hiff. split; [exact Hin|].
  exists (nth 2 (py_split TAB line) EmptyString). split; [exact Hname|].
  apply (contains_field TAB). apply nth_In. lia.
Qed.

Lemma sampler_kept_whitelisted_witness :
  In rec_other (sampler_kept [rec_fwd; rec_other] 1 ["k141_7"; "k141_2"]%string).
Proof.
  apply (proj2 (sampler_kept_whitelisted [rec_fwd; rec_other] 1
                  ["k141_7"; "k141_2"]%string rec_other)).
  - right. left. reflexivity.
  - vm_compute. lia.
  - vm_compute. left. reflexivity.
Defined.

Lemma sampler_kept_no_pattern bam : sampler_kept bam 0 [] = [] /\
  forall top_k contig_sort,
    top_k = 0%nat \/ contig_sort = [] -> sampler_kept bam top_k contig_sort = [].
Proof.
  assert (H : List.filter (grep_F []) bam = []).
  { induction bam as [|l ls IH]; [reflexivity|]. cbn. exact IH. }
  split; [exact H|].
  intros top_k contig_sort [-> | ->]; unfold sampler_kept.
  - exact H.
  - rewrite List.firstn_nil. exact H.
Qed.

(** X15: with [top_k = 0], or with an empty whitelist, no line passes
    the filter and the sample is the default one, 300, 400, 500, whatever
    the alignments are. *)
Theorem sample_insert_sizes_no_whitelist (bam : list string) (top_k : nat)
    (contig_sort : list string) :
  top_k = 0%nat \/ contig_sort = [] ->
  sample_insert_sizes bam top_k contig_sort = [300; 400; 500]%Z.
Proof.
  intros H. unfold sample_insert_sizes.
  rewrite (proj2 (sampler_kept_no_pattern bam) top_k contig_sort H).
  reflexivity.
Qed.

Lemma sample_insert_sizes_no_whitelist_witness :
  sample_insert_sizes [rec_fwd; rec_other] 0 whitelist = [300; 400; 500]%Z.
Proof.
  apply (sample_insert_sizes_no_whitelist [rec_fwd; rec_other] 0 whitelist).
  left. reflexivity.
Defined.

(** *** Read partition *)

Lemma elem_of_sg_readnames cutoff bam name :
  name ∈ sg_readnames cutoff bam <->
  exists line, In line bam /\ cut_f1 line = name /\ band_keep cutoff line = true.
Proof.
  unfold sg_readnames. rewrite elem_of_list_to_set, list_elem_of_In, List.in_map_iff.
  split.
  - intros (line & Hname & Hin). apply List.filter_In in Hin as [Hin Hk].
    exists line. auto.
  - intros (line & Hin & Hname & Hk). exists line. split; [exact Hname|].
    apply List.filter_In. auto.
Qed.

Lemma elem_of_all_readnames bam name :
  name ∈ all_readnames bam <-> exists line, In line bam /\ cut_f1 line = name.
Proof.
  unfold all_readnames. rewrite elem_of_list_to_set, list_elem_of_In, List.in_map_iff.
  split; intros (line & H1 & H2); exists line; auto.
Qed.

Lemma sg_subset_all cutoff bam : sg_readnames cutoff bam ⊆ all_readnames bam.
Proof.
  intros name Hin. apply elem_of_sg_readnames in Hin as (line & Hin & Hname & _).
  apply elem_of_all_readnames. exists line. auto.
Qed.

(** X16: the two name files partition the read names of the BAM file:
    every read name is in exactly one of the shotgun-like and the
    non-shotgun-like file, and neither holds any other name. *)
Theorem readnames_partition (cutoff : R) (bam : list string) :
  sg_readnames cutoff bam ∪ non_sg_readnames cutoff bam = all_readnames bam /\
  sg_readnames cutoff bam ## non_sg_readnames cutoff bam.
Proof.
  unfold non_sg_readnames. pose proof (sg_subset_all cutoff bam) as Hsub. split.
  - apply set_eq. intros name.
    rewrite elem_of_union, elem_of_difference. split.
    + intros [Hsg | [Hall _]]; [apply Hsub, Hsg|exact Hall].
    + intros Hall.
      destruct (decide (name ∈ sg_readnames cutoff bam)); [now left|now right].
  - apply elem_of_disjoint. intros name Hsg Hnon.
    apply elem_of_difference in Hnon as [_ Hnot]. contradiction.
Qed.

Lemma band_keep_spec cutoff line :
  band_keep cutoff line = true <->
  exists t, parse_int (nth 8 (awk_fields line) EmptyString) = Some t /\
            t <> 0%Z /\ - cutoff <= IZR t <= cutoff.
Proof.
  unfold band_keep.
  destruct (parse_int (nth 8 (awk_fields line) EmptyString)) as [t|].
  - destruct (Rge_dec (IZR t) (- cutoff)) as [Hlo|Hlo].
    + destruct (Rle_dec (IZR t) cutoff) as [Hhi|Hhi].
      * destruct (Z.eqb_spec t 0) as [Hz|Hz]; cbn [negb]; split.
        -- discriminate.
        -- intros (t' & Ht' & Hnz & _). injection Ht' as <-. contradiction.
        -- intros _. exists t. repeat split; [exact Hz|lra|lra].
        -- reflexivity.
      * split; [discriminate|].
        intros (t' & Ht' & _ & Hb). injection Ht' as <-. lra.
    + split; [discriminate|].
      intros (t' & Ht' & _ & Hb). injection Ht' as <-. lra.
  - split; [discriminate|]. intros (t' & Ht' & _). discriminate Ht'.
Qed.

(** X17: a read name is in the shotgun-like file exactly when one of
    its records has, in column 9, an integer template length [t] with
    [t <> 0] and [-cutoff <= t <= cutoff]; it is in the non-shotgun-like
    file exactly when it has a record and every integer template length
    of its records is zero, below [-cutoff] or above [cutoff]. *)
Theorem readnames_by_record (cutoff : R) (bam : list string) (name : string) :
  (name ∈ sg_readnames cutoff bam <->
   exists line t,
     In line bam /\ cut_f1 line = name /\
     parse_int (nth 8 (awk_fields line) EmptyString) = Some t /\
     t <> 0%Z /\ - cutoff <= IZR t <= cutoff) /\
  (name ∈ non_sg_readnames cutoff bam <->
   (exists line, In line bam /\ cut_f1 line = name) /\
   forall line t,
     In line bam -> cut_f1 line = name ->
     parse_int (nth 8 (awk_fields line) EmptyString) = Some t ->
     t = 0%Z \/ IZR t < - cutoff \/ cutoff < IZR t).
Proof.
  assert (Hsg : name ∈ sg_readnames cutoff bam <->
                exists line t,
                  In line bam /\ cut_f1 line = name /\
                  parse_int (nth 8 (awk_fields line) EmptyString) = Some t /\
                  t <> 0%Z /\ - cutoff <= IZR t <= cutoff).
  { rewrite elem_of_sg_readnames. split.
    - intros (line & Hin & Hname & Hk).
      apply band_keep_spec in Hk as (t & Hp & Hnz & Hb).
      exists line, t. auto.
    - intros (line & t & Hin & Hname & Hp & Hnz & Hb).
      exists line. split; [exact Hin|]. split; [exact Hname|].
      apply band_keep_spec. exists t. auto. }
  split; [exact Hsg|].
  unfold non_sg_readnames.
  rewrite elem_of_difference, elem_of_all_readnames, Hsg.
  split.
  - intros [Hall Hnot]. split; [exact Hall|].
    intros line t Hin Hname Hp.
    destruct (Z.eq_dec t 0%Z) as [Hz|Hz]; [now left|right].
    destruct (Rlt_dec (IZR t) (- cutoff)) as [Hlo|Hlo]; [now left|right].
    destruct (Rlt_dec cutoff (IZR t)) as [Hhi|Hhi]; [exact Hhi|].
    exfalso. apply Hnot. exists line, t.
    repeat split; [exact Hin|exact Hname|exact Hp|exact Hz|lra|lra].
  - intros [Hall Hout]. split; [exact Hall|].
    intros (line & t & Hin & Hname & Hp & Hnz & Hlo & Hhi).
    destruct (Hout line t Hin Hname Hp) as [Hz|[Hl|Hh]]; [contradiction|lra|lra].
Qed.

(** The partition on a small file: with cutoff 400 the pair whose
    template length is 300 is shotgun-like, the pair whose template
    length is 500 is not. *)
Example partition_sample_400 :
  sg_readnames 400 [rec_fwd; rec_other] = {[ "r1"%string ]} /\
  non_sg_readnames 400 [rec_fwd; rec_other] = {[ "r2"%string ]}.
Proof.
  assert (Hf : band_keep 400 rec_fwd = true).
  { apply band_keep_spec. exists 300%Z. split; [vm_compute; reflexivity|].
    split; [lia|lra]. }
  assert (Ho : band_keep 400 rec_other = false).
  { unfold band_keep.
    replace (parse_int (nth 8 (awk_fields rec_other) EmptyString))
      with (Some 500%Z) by (vm_compute; reflexivity).
    destruct (Rge_dec _ _); [|reflexivity].
    destruct (Rle_dec _ _); [lra|reflexivity]. }
  unfold non_sg_readnames, all_readnames, sg_readnames.
  cbn [List.filter map]. rewrite Hf, Ho. cbn [map list_to_set].
  replace (cut_f1 rec_fwd) with "r1"%string by (vm_compute; reflexivity).
  replace (cut_f1 rec_other) with "r2"%string by (vm_compute; reflexivity).
  split; apply set_eq; intros x;
    rewrite ?elem_of_difference, ?elem_of_union, ?elem_of_singleton,
            ?elem_of_empty.
  - tauto.
  - split.
    + intros [[H|[H|[]]] Hn]; [exfalso; apply Hn; now left|exact H].
    + intros ->. split; [right; now left|]. intros [H|[]]. discriminate H.
Qed.

Lemma derive_cutoff_floor norm_ppf muC muN sigmaC sigmaN :
  100 <= derive_cutoff norm_ppf muC muN sigmaC sigmaN.
Proof.
  unfold derive_cutoff, try_cutoff.
  destruct (norm_ppf (5 / 100)); [|lra].
  destruct (norm_ppf (95 / 100)); [|lra].
  apply cutoff_policy_floor.
Qed.

Lemma band_keep_inside cutoff line t :
  parse_int (nth 8 (awk_fields line) EmptyString) = Some t ->
  t <> 0%Z -> - cutoff <= IZR t <= cutoff -> band_keep cutoff line = true.
Proof.
  intros Hp Hnz [Hlo Hhi]. unfold band_keep. rewrite Hp.
  destruct (Rge_dec (IZR t) (- cutoff)); [|lra].
  destruct (Rle_dec (IZR t) cutoff); [|lra].
  destruct (Z.eqb_spec t 0); [contradiction|reflexivity].
Qed.

(** X18: the cutoff and the partition composed: for all finite fitted
    parameters (the means and deviations are real numbers, as in the
    cutoff policy), and whether or not the quantile function raises, a
    read with a record whose template length [t] satisfies
    [0 < |t| <= 100] is shotgun-like under the derived cutoff. *)
Theorem short_inserts_are_shotgun (norm_ppf : R -> option R)
    (muC muN sigmaC sigmaN : R) (bam : list string) (line : string) (t : Z) :
  In line bam ->
  parse_int (nth 8 (awk_fields line) EmptyString) = Some t ->
  (0 < Z.abs t <= 100)%Z ->
  cut_f1 line ∈
    sg_readnames (derive_cutoff norm_ppf muC muN sigmaC sigmaN) bam.
Proof.
  intros Hin Hp Ht.
  pose proof (derive_cutoff_floor norm_ppf muC muN sigmaC sigmaN) as Hfloor.
  apply elem_of_sg_readnames. exists line. split; [exact Hin|].
  split; [reflexivity|].
  apply (band_keep_inside _ line t Hp); [lia|].
  assert (Hlo : (-100 <= t)%Z) by lia. assert (Hhi : (t <= 100)%Z) by lia.
  apply IZR_le in Hlo, Hhi. lra.
Qed.

Lemma short_inserts_are_shotgun_witness :
  cut_f1 (sam_line ["r5"; "99"; "k141_3"; "10"; "60"; "50M"; "="; "60"; "-90"]%string) ∈
    sg_readnames (derive_cutoff z_table 2000 400 300 50)
      [rec_fwd; sam_line ["r5"; "99"; "k141_3"; "10"; "60"; "50M"; "="; "60"; "-90"]%string].
Proof.
  apply (short_inserts_are_shotgun z_table 2000 400 300 50 _ _ (-90)%Z).
  - right. left. reflexivity.
  - vm_compute. reflexivity.
  - cbn. lia.
Defined.

(** X19: raising the cutoff never moves a read out of the shotgun-like
    file: the file for a cutoff is contained in the file for any larger
    one. *)
Theorem sg_readnames_monotone (c c' : R) (bam : list string) :
  c <= c' -> sg_readnames c bam ⊆ sg_readnames c' bam.
Proof.
  intros Hc name Hin.
  apply elem_of_sg_readnames in Hin as (line & Hin & Hname & Hk).
  apply elem_of_sg_readnames. exists line. split; [exact Hin|].
  split; [exact Hname|].
  unfold band_keep in *.
  destruct (parse_int (nth 8 (awk_fields line) EmptyString)) as [t|];
    [|discriminate Hk].
  destruct (Rge_dec (IZR t) (- c)); [|discriminate Hk].
  destruct (Rle_dec (IZR t) c); [|discriminate Hk].
  destruct (Rge_dec (IZR t) (- c')); [|lra].
  destruct (Rle_dec (IZR t) c'); [exact Hk|lra].
Qed.

Lemma sg_readnames_monotone_witness :
  sg_readnames 100 [rec_fwd; rec_other] ⊆ sg_readnames 500 [rec_fwd; rec_other].
Proof.
  apply (sg_readnames_monotone 100 500 [rec_fwd; rec_other]). lra.
Defined.

(** *** Integers as text, and reading the sample back *)

Lemma parse_digits_cons c k acc s :
  digit_val c = Some k ->
  parse_digits acc (String c s) = parse_digits (10 * acc + k)%Z s.
Proof. intros H. cbn [parse_digits]. now rewrite H. Qed.

(** Read the leading digit of the text in the goal. *)
Ltac step_digit :=
  match goal with
  | |- parse_digits _ (String ?c _) = _ =>
      let k := eval vm_compute in (digit_val c) in
      match k with
      | Some ?v => rewrite (parse_digits_cons c v) by reflexivity
      end
  end.

Lemma parse_digits_uint_acc d : forall acc,
  parse_digits (Z.pos acc) (DecimalString.NilEmpty.string_of_uint d) =
  Some (Z.pos (Pos.of_uint_acc d acc)).
Proof.
  induction d; intros acc;
    cbn [DecimalString.NilEmpty.string_of_uint Pos.of_uint_acc];
    [reflexivity|..];
    step_digit;
    match goal with
    | |- parse_digits ?a _ = Some (Z.pos (Pos.of_uint_acc _ ?b)) =>
        replace a with (Z.pos b) by lia
    end; apply IHd.
Qed.

Lemma parse_digits_uint d :
  parse_digits 0 (DecimalString.NilEmpty.string_of_uint d) =
  Some (Z.of_N (Pos.of_uint d)).
Proof.
  induction d;
    cbn [DecimalString.NilEmpty.string_of_uint Pos.of_uint];
    [reflexivity|..];
    step_digit;
    [exact IHd|..];
    match goal with
    | |- parse_digits ?a _ = Some (Z.of_N (N.pos (Pos.of_uint_acc _ ?b))) =>
        change a with (Z.pos b)
    end; apply parse_digits_uint_acc.
Qed.

Lemma print_pos_text p :
  DecimalString.NilZero.string_of_uint (Pos.to_uint p) =
  DecimalString.NilEmpty.string_of_uint (Pos.to_uint p) /\
  parse_digits 0 (DecimalString.NilEmpty.string_of_uint (Pos.to_uint p)) =
  Some (Z.pos p).
Proof.
  split.
  - pose proof (DecimalPos.Unsigned.to_uint_nonnil p) as Hnn.
    destruct (Pos.to_uint p); [contradiction|reflexivity..].
  - rewrite parse_digits_uint, DecimalPos.Unsigned.of_to. reflexivity.
Qed.

Lemma parse_int_digits s :
  s <> EmptyString -> all_digits s = true -> parse_int s = parse_digits 0 s.
Proof.
  destruct s as [|c s]; [congruence|]. intros _ Hd. cbn [all_digits] in Hd.
  apply andb_true_iff in Hd as [Hc _]. unfold parse_int.
  destruct (Ascii.eqb_spec c "-"%char) as [->|_]; [discriminate Hc|reflexivity].
Qed.

Lemma all_digits_uint d :
  all_digits (DecimalString.NilEmpty.string_of_uint d) = true.
Proof. induction d; cbn; auto. Qed.

Lemma print_pos_digits p :
  print_int (Z.pos p) <> EmptyString /\ all_digits (print_int (Z.pos p)) = true.
Proof.
  unfold print_int. cbn [Z.to_int DecimalString.NilZero.string_of_int].
  rewrite (proj1 (print_pos_text p)). split; [|apply all_digits_uint].
  pose proof (DecimalPos.Unsigned.to_uint_nonnil p) as Hnn.
  destruct (Pos.to_uint p); [contradiction|discriminate..].
Qed.

(** X20: the integer syntax round-trips: reading the decimal text of any
    integer, as samtools prints it in column 9, gives that integer
    back. *)
Theorem parse_int_print_int (z : Z) : parse_int (print_int z) = Some z.
Proof.
  destruct z as [|p|p].
  - reflexivity.
  - destruct (print_pos_digits p) as [Hne Hd].
    rewrite (parse_int_digits _ Hne Hd). unfold print_int.
    cbn [Z.to_int DecimalString.NilZero.string_of_int].
    rewrite (proj1 (print_pos_text p)). apply print_pos_text.
  - unfold print_int. cbn [Z.to_int DecimalString.NilZero.string_of_int].
    destruct (print_pos_text p) as [Htext Hparse]. rewrite Htext.
    unfold parse_int. cbn [Ascii.eqb Bool.eqb].
    pose proof (DecimalPos.Unsigned.to_uint_nonnil p) as Hnn.
    rewrite Hparse.
    destruct (Pos.to_uint p); [contradiction|reflexivity..].
Qed.

Lemma digit_not_space c : is_digit c = true -> py_isspace c = false.
Proof.
  destruct c as [[] [] [] [] [] [] [] []]; vm_compute;
    intros H; try reflexivity; discriminate H.
Qed.

Lemma digit_not_dot c : is_digit c = true -> Ascii.eqb c "."%char = false.
Proof.
  destruct c as [[] [] [] [] [] [] [] []]; vm_compute;
    intros H; try reflexivity; discriminate H.
Qed.

Lemma py_rstrip_digits_lf s :
  all_digits s = true -> py_rstrip (s ++ String LF EmptyString) = s.
Proof.
  induction s as [|c s IH]; intros Hd; [reflexivity|].
  cbn [all_digits] in Hd. apply andb_true_iff in Hd as [Hc Hs].
  change (String c s ++ String LF EmptyString)%string
    with (String c (s ++ String LF EmptyString))%string.
  cbn [py_rstrip]. rewrite (IH Hs).
  destruct s; [now rewrite (digit_not_space c Hc)|reflexivity].
Qed.

Lemma py_strip_digits_lf s :
  all_digits s = true -> py_strip (s ++ String LF EmptyString) = s.
Proof.
  intros Hd. unfold py_strip. destruct s as [|c s]; [reflexivity|].
  pose proof Hd as Hd'. cbn [all_digits] in Hd'.
  apply andb_true_iff in Hd' as [Hc _].
  change (String c s ++ String LF EmptyString)%string
    with (String c (s ++ String LF EmptyString))%string.
  cbn [py_lstrip]. rewrite (digit_not_space c Hc).
  apply (py_rstrip_digits_lf (String c s) Hd).
Qed.

Lemma remove_char_digits s :
  all_digits s = true -> remove_char "."%char s = s.
Proof.
  induction s as [|c s IH]; intros Hd; [reflexivity|].
  cbn [all_digits] in Hd. apply andb_true_iff in Hd as [Hc Hs].
  cbn [remove_char]. now rewrite (digit_not_dot c Hc), (IH Hs).
Qed.

Lemma py_split_digits s : all_digits s = true -> py_split "."%char s = [s].
Proof.
  induction s as [|c s IH]; intros Hd; [reflexivity|].
  cbn [all_digits] in Hd. apply andb_true_iff in Hd as [Hc Hs].
  cbn [py_split]. now rewrite (digit_not_dot c Hc), (IH Hs).
Qed.

Lemma read_value_printed (v : Z) :
  (0 < v < 5000)%Z ->
  read_value (print_int v ++ String LF EmptyString) = Some (Some (IZR v)).
Proof.
  intros [Hlo Hhi]. destruct v as [|p|p]; try lia.
  destruct (print_pos_digits p) as [Hne Hd].
  unfold read_value. rewrite (py_strip_digits_lf _ Hd), (remove_char_digits _ Hd).
  unfold py_isdigit, py_float. rewrite (py_split_digits _ Hd), Hd.
  destruct (String.eqb_spec (print_int (Z.pos p)) EmptyString) as [He|_];
    [contradiction|].
  cbn [negb andb].
  assert (Hparse : parse_digits 0 (print_int (Z.pos p)) = Some (Z.pos p)).
  { unfold print_int. cbn [Z.to_int DecimalString.NilZero.string_of_int].
    rewrite (proj1 (print_pos_text p)). apply print_pos_text. }
  rewrite Hparse. cbn [option_map].
  apply IZR_lt in Hlo, Hhi.
  destruct (Rgt_dec (IZR (Z.pos p)) 0); [|lra].
  destruct (Rlt_dec (IZR (Z.pos p)) 5000); [reflexivity|lra].
Qed.

Lemma read_insert_size_file (values : list Z) :
  Forall (fun v => (0 < v < 5000)%Z) values ->
  read_insert_sizes (insert_size_file values) = Some (map IZR values).
Proof.
  induction 1 as [|v vs Hv _ IH]; [reflexivity|].
  cbn [insert_size_file map read_insert_sizes].
  rewrite (read_value_printed v Hv).
  unfold insert_size_file in IH. rewrite IH. reflexivity.
Qed.

(** X21: [main] reads back what the sampler wrote: for every BAM text
    and whitelist, reading the lines of [insert_size.txt] raises no error,
    drops no value and returns the sampled values in order. *)
Theorem read_back_sample (bam : list string) (top_k : nat)
    (contig_sort : list string) :
  read_insert_sizes (insert_size_file (sample_insert_sizes bam top_k contig_sort)) =
  Some (map IZR (sample_insert_sizes bam top_k contig_sort)).
Proof.
  apply read_insert_size_file. unfold sample_insert_sizes.
  pose proof (omap_awk_range (sampler_kept bam top_k contig_sort)) as Hall.
  destruct (omap awk_insert_size (sampler_kept bam top_k contig_sort)) as [|v vs].
  - repeat constructor; lia.
  - exact Hall.
Qed.

Lemma read_value_range line v :
  read_value line = Some (Some v) -> 0 < v < 5000.
Proof.
  unfold read_value.
  destruct (negb (String.eqb (py_strip line) EmptyString) &&
            py_isdigit (remove_char "."%char (py_strip line))); [|discriminate].
  destruct (py_float (py_strip line)) as [val|]; [|discriminate].
  destruct (Rgt_dec val 0); [|discriminate].
  destruct (Rlt_dec val 5000); [|discriminate].
  intros H. injection H as <-. lra.
Qed.

(** X22: whatever the file holds, when the reading loop ends without an
    error every value it collected lies strictly between 0 and 5000. *)
Theorem read_insert_sizes_range (lines : list string) (values : list R) :
  read_insert_sizes lines = Some values ->
  Forall (fun v => 0 < v < 5000) values.
Proof.
  revert values. induction lines as [|line rest IH]; intros values Hread.
  - injection Hread as <-. constructor.
  - cbn [read_insert_sizes] in Hread.
    destruct (read_value line) as [[v|]|] eqn:Hline; [| |discriminate].
    + destruct (read_insert_sizes rest) as [vs|]; [|discriminate].
      injection Hread as <-. constructor.
      * apply (read_value_range line v Hline).
      * apply IH. reflexivity.
    + destruct (read_insert_sizes rest) as [vs|]; [|discriminate].
      injection Hread as <-. apply IH. reflexivity.
Qed.

Lemma read_insert_sizes_range_witness :
  Forall (fun v => 0 < v < 5000) (map IZR [300; 400; 500]%Z).
Proof.
  apply (read_insert_sizes_range (insert_size_file [300; 400; 500]%Z)).
  apply read_insert_size_file. repeat constructor; lia.
Defined.

(** *** The pipeline of [main]: initialise, fit, estimate *)

Lemma np_sum_bounds (a b : R) xs :
  (forall x, In x xs -> a <= x <= b) ->
  a * len xs <= np_sum xs <= b * len xs.
Proof.
  unfold len. induction xs as [|x xs IH]; intros Hx; [cbn; lra|].
  change (np_sum (x :: xs)) with (x + np_sum xs).
  change (List.length (x :: xs)) with (S (List.length xs)). rewrite S_INR.
  pose proof (Hx x (or_introl eq_refl)).
  assert (a * INR (List.length xs) <= np_sum xs <= b * INR (List.length xs))
    by (apply IH; intros y Hy; apply Hx; now right).
  lra.
Qed.

Lemma mean_of_within (a b : R) xs :
  xs <> [] -> (forall x, In x xs -> a <= x <= b) -> a <= mean_of xs <= b.
Proof.
  intros Hne Hx. pose proof (len_pos xs Hne) as Hlen.
  pose proof (np_sum_bounds a b xs Hx) as [Hlo Hhi].
  assert (Hinv : 0 < / len xs) by (apply Rinv_0_lt_compat, Hlen).
  unfold mean_of, Rdiv. split.
  - apply Rmult_le_reg_r with (len xs); [exact Hlen|].
    rewrite Rmult_assoc, Rinv_l by lra. lra.
  - apply Rmult_le_reg_r with (len xs); [exact Hlen|].
    rewrite Rmult_assoc, Rinv_l by lra. lra.
Qed.

Lemma np_mean_some xs : xs <> [] -> np_mean xs = Some (mean_of xs).
Proof. destruct xs; [congruence|reflexivity]. Qed.

(** X23: on a sample of at least two values that all lie in [[a, b]],
    the means [init_params] starts from are numbers in [[a, b]], and the
    means the fit then returns from them lie in [[a, b]] as well, for every
    split fraction, tolerance and iteration cap and for all positive
    deviations (those of [init_params], when they are numbers, among
    them). *)
Theorem init_then_em_means_within (data : list R) (a b init_frac : R) :
  (2 <= List.length data)%nat ->
  (forall x, In x data -> a <= x <= b) ->
  let p := init_params data init_frac in
  exists mN mC,
    init_mu_N p = Some mN /\ init_mu_C p = Some mC /\
    a <= mN <= b /\ a <= mC <= b /\
    forall (sN sC tol : R) (max_iter : nat),
      0 < sN -> 0 < sC ->
      let '((mC', mN', _, _, _, _), _) :=
        em_mix data mN mC sN sC (init_pi_N p) (init_pi_C p) tol max_iter in
      a <= mN' <= b /\ a <= mC' <= b.
Proof.
  intros Hn Hx p.
  assert (Hne : data <> []) by (destruct data; [cbn in Hn; lia|discriminate]).
  pose proof (init_fraction_bounds data init_frac Hne) as Hf.
  pose proof (init_groups_nonempty data init_frac Hn) as [Hl Hu].
  pose proof (init_groups_subset data init_frac) as [Hsl Hsu].
  assert (Hp : p = mkInit (np_mean (fst (init_groups data init_frac)))
                     (np_mean (snd (init_groups data init_frac)))
                     (py_max_nan (np_std1 (fst (init_groups data init_frac))) 1)
                     (py_max_nan (np_std1 (snd (init_groups data init_frac))) 1)
                     (len (fst (init_groups data init_frac)) / len data)
                     (1 - len (fst (init_groups data init_frac)) / len data)).
  { unfold p, init_params. destruct data as [|x xs]; [contradiction|].
    destruct (init_groups (x :: xs) init_frac) as [lower upper]. reflexivity. }
  clearbody p. subst p.
  cbn [init_mu_N init_mu_C init_pi_N init_pi_C].
  destruct (init_groups data init_frac) as [lower upper]. cbn [fst snd] in *.
  assert (HmN : a <= mean_of lower <= b)
    by (apply mean_of_within; [exact Hl|]; intros y Hy; apply Hx, Hsl, Hy).
  assert (HmC : a <= mean_of upper <= b)
    by (apply mean_of_within; [exact Hu|]; intros y Hy; apply Hx, Hsu, Hy).
  exists (mean_of lower), (mean_of upper).
  split; [apply np_mean_some, Hl|]. split; [apply np_mean_some, Hu|].
  split; [exact HmN|]. split; [exact HmC|].
  intros sN sC tol max_iter HsN HsC.
  destruct (em_mix_invariant (fun q => weights_ok q /\ means_within a b q)
              data (mean_of lower) (mean_of upper) sN sC
              (len lower / len data) (1 - len lower / len data)
              tol max_iter Hne)
    as (q & [_ Hq] & Hres).
  { intros q [Hq Hmq]. split.
    - apply em_step_weights_ok; assumption.
    - apply em_step_means_within; assumption. }
  { split.
    - unfold weights_ok. cbn [pi_N pi_C sigma_N sigma_C]. repeat split; lra.
    - unfold means_within. cbn [mu_N mu_C]. split; assumption. }
  destruct (em_mix data (mean_of lower) (mean_of upper) sN sC
              (len lower / len data) (1 - len lower / len data) tol max_iter)
    as [[[[[[mC' mN'] sC'] sN'] piC'] piN'] evs].
  cbn [fst] in Hres. unfold em_result in Hres.
  injection Hres as -> -> -> -> -> ->. exact Hq.
Qed.

Lemma init_then_em_means_within_witness :
  let p := init_params scenario (8 / 10) in
  exists mN mC,
    init_mu_N p = Some mN /\ init_mu_C p = Some mC /\
    0 <= mN <= 5000 /\ 0 <= mC <= 5000 /\
    forall (sN sC tol : R) (max_iter : nat),
      0 < sN -> 0 < sC ->
      let '((mC', mN', _, _, _, _), _) :=
        em_mix scenario mN mC sN sC (init_pi_N p) (init_pi_C p) tol max_iter in
      0 <= mN' <= 5000 /\ 0 <= mC' <= 5000.
Proof.
  apply (init_then_em_means_within scenario 0 5000 (8 / 10)).
  - cbn. lia.
  - intros x [<- | [<- | [<- | [<- | [<- | []]]]]]; lra.
Defined.

(** X24: with a chimeric weight between 0 and 1 and at least one pair
    counted, the long-range ratio is a number between that weight and 1;
    with at least one intra-reference pair the 3D ratio is a non-negative
    number. *)
Theorem chimeric_ratio_bounds (n m : nat) (piC : R) :
  0 <= piC <= 1 ->
  ((0 < n + m)%nat ->
     exists r, long_range_ratio n m piC = Finite r /\ piC <= r <= 1) /\
  ((0 < n)%nat -> exists r, ratio_3d n m = Finite r /\ 0 <= r).
Proof.
  intros [H0 H1]. pose proof (pos_INR n) as Hn. pose proof (pos_INR m) as Hm.
  split.
  - intros Hpos. unfold long_range_ratio.
    destruct (Nat.ltb_spec 0 (n + m)); [|lia].
    eexists. split; [reflexivity|].
    assert (Hs : 0 < INR (n + m)) by (apply lt_0_INR; lia).
    assert (Hinv : 0 < / INR (n + m)) by (apply Rinv_0_lt_compat, Hs).
    rewrite plus_INR in *. unfold Rdiv. split.
    + apply Rmult_le_reg_r with (INR n + INR m); [exact Hs|].
      rewrite Rmult_assoc, Rinv_l by lra. nra.
    + apply Rmult_le_reg_r with (INR n + INR m); [exact Hs|].
      rewrite Rmult_assoc, Rinv_l by lra. nra.
  - intros Hpos. unfold ratio_3d.
    destruct (Nat.ltb_spec 0 n); [|lia].
    eexists. split; [reflexivity|].
    assert (Hs : 0 < INR n) by (apply lt_0_INR; lia).
    assert (Hinv : 0 < / INR n) by (apply Rinv_0_lt_compat, Hs).
    unfold Rdiv. apply Rmult_le_pos; lra.
Qed.

Lemma chimeric_ratio_bounds_witness :
  (exists r, long_range_ratio 3 1 (1 / 2) = Finite r /\ 1 / 2 <= r <= 1) /\
  (exists r, ratio_3d 3 1 = Finite r /\ 0 <= r).
Proof.
  destruct (chimeric_ratio_bounds 3 1 (1 / 2)) as [Hl Hr]; [lra|].
  split; [apply Hl|apply Hr]; cbn; lia.
Defined.
